(** * Punching-Music: jump detection, scale mapping and WAV streaming

  A shallow embedding of [purnching_music_program.ino].  The sketch has three
  classes: [AccelerometerManager] (the jump detector), [AudioManager] (the
  WAV streamer) and [JumpSoundSystem] (the control loop and the scale
  mapping).  Each class is a module below; member variables become a record
  that is passed explicitly, calls on the hardware become inputs (what the
  call returned) and trace events (that the call was made). *)

From Stdlib Require Import ZArith List Bool Lia QArith Qround String Sorted.
Import ListNotations.
Open Scope Z_scope.

(** ** Fixed-width integers of the target (32-bit ARM: [unsigned long],
     [uint32_t] and [size_t] are 32 bits wide, [int16_t] is 16) *)
Module MachineInt.

(** Conversion to [int16_t]: two's complement wrap-around. *)
Definition int16 (x : Z) : Z := (x + 32768) mod 65536 - 32768.

(** Conversion to [uint32_t] / [unsigned long] / [size_t]. *)
Definition uint32 (x : Z) : Z := x mod 4294967296.

(** [a - b] on two [unsigned long] values. *)
Definition sub32 (a b : Z) : Z := uint32 (a - b).

(** [z = abs(z)] on an [int16_t]: the absolute value is taken in [int] and
    stored back into 16 bits. *)
Definition abs16 (z : Z) : Z := int16 (Z.abs z).

End MachineInt.
Import MachineInt.

(** ** [namespace Constants] *)
Module Constants.
Definition JUMP_THRESHOLD : Z := 80.
Definition MIN_ACCELERATION : Z := 80.
Definition MAX_ACCELERATION : Z := 400.
Definition JUMP_COOLDOWN : Z := 500.
Definition BUFFER_SIZE : Z := 1024.
Definition SCALE_SIZE : Z := 8.
Definition SCALE_FILES : list string :=
  ["C3.wav"; "D3.wav"; "E3.wav"; "F3.wav";
   "G3.wav"; "A3.wav"; "B3.wav"; "C4.wav"]%string.
End Constants.

(** ** [class AccelerometerManager] *)
Module AccelerometerManager.
Import Constants.

(** The private members. *)
Record t : Type := mk {
  peak_acceleration : Z;
  is_jumping : bool;
  last_jump_time : Z
}.

(** The member initialisers. *)
Definition initial : t :=
  {| peak_acceleration := 0; is_jumping := false; last_jump_time := 0 |}.

(** [detectJump]: [raw] is what [readAxis(ADXL345_REG_DATAZ0)] returned and
    [now] what [millis()] returned.  The three [if]s of the body run in the
    order of the source; the first one returns. *)
Definition detectJump (s : t) (raw now : Z) : t * bool :=
  let z := abs16 raw in
  let current_time := now in
  if (JUMP_THRESHOLD <? z) && negb (is_jumping s)
     && (JUMP_COOLDOWN <? sub32 current_time (last_jump_time s))
  then
    ({| peak_acceleration := z;
        is_jumping := true;
        last_jump_time := current_time |}, true)
  else
    let s1 :=
      if (z <? JUMP_THRESHOLD) && is_jumping s
      then {| peak_acceleration := 0;
              is_jumping := false;
              last_jump_time := last_jump_time s |}
      else s in
    let s2 :=
      if is_jumping s1 && (peak_acceleration s1 <? z)
      then {| peak_acceleration := z;
              is_jumping := is_jumping s1;
              last_jump_time := last_jump_time s1 |}
      else s1 in
    (s2, false).

Definition getPeakAcceleration (s : t) : Z := peak_acceleration s.

Definition resetPeakAcceleration (s : t) : t :=
  {| peak_acceleration := 0;
     is_jumping := is_jumping s;
     last_jump_time := last_jump_time s |}.

(** The detector driven by a sequence of (reading, clock) observations:
    the clock values at which [detectJump] returned [true]. *)
Fixpoint trigger_times (s : t) (obs : list (Z * Z)) : list Z :=
  match obs with
  | [] => []
  | (raw, now) :: rest =>
      let (s', jumped) := detectJump s raw now in
      if jumped then now :: trigger_times s' rest
      else trigger_times s' rest
  end.

(** The peaks recorded after each observation for as long as the detector
    stays in the jumping state. *)
Fixpoint peaks_while_jumping (s : t) (obs : list (Z * Z)) : list Z :=
  match obs with
  | [] => []
  | (raw, now) :: rest =>
      let s' := fst (detectJump s raw now) in
      if is_jumping s'
      then peak_acceleration s' :: peaks_while_jumping s' rest
      else []
  end.

(** The peak left by the first observation that ends the jump, if any. *)
Fixpoint landing_peak (s : t) (obs : list (Z * Z)) : option Z :=
  match obs with
  | [] => None
  | (raw, now) :: rest =>
      let s' := fst (detectJump s raw now) in
      if is_jumping s' then landing_peak s' rest
      else Some (peak_acceleration s')
  end.

(** [readAxis]: [lo] is what the [Wire.read()] on the left of the [|]
    returned and [hi] what the [Wire.read()] that is shifted returned.  The
    bytes are combined in [int] and the result is returned as an
    [int16_t]. *)
Definition readAxis (lo hi : Z) : Z := int16 (Z.lor lo (Z.shiftl hi 8)).

(** The readings, as stored by [detectJump], at which it returned [true]. *)
Fixpoint trigger_readings (s : t) (obs : list (Z * Z)) : list Z :=
  match obs with
  | [] => []
  | (raw, now) :: rest =>
      let (s', jumped) := detectJump s raw now in
      if jumped then abs16 raw :: trigger_readings s' rest
      else trigger_readings s' rest
  end.

(** The detector after a sequence of observations. *)
Definition observe_all (s : t) (obs : list (Z * Z)) : t :=
  fold_left (fun s o => fst (detectJump s (fst o) (snd o))) obs s.

End AccelerometerManager.

(** ** The Arduino core functions the sketch calls *)
Module Arduino.

(** [constrain(amt, low, high)]. *)
Definition constrain (amt low high : Z) : Z :=
  if amt <? low then low else if high <? amt then high else amt.

(** [long map(long x, long in_min, long in_max, long out_min, long out_max)]:
    integer arithmetic, the division truncates towards zero. *)
Definition map (x in_min in_max out_min out_max : Z) : Z :=
  Z.quot ((x - in_min) * (out_max - out_min)) (in_max - in_min) + out_min.

(** [round(x)]: to the nearest integer, halves away from zero. *)
Definition round (x : Q) : Z :=
  if Qle_bool 0 x then Qfloor (x + (1 # 2)) else Qceiling (x - (1 # 2)).

End Arduino.

(** ** [class AudioManager] *)
Module AudioManager.
Import Constants.

(** What [parseChunk] leaves in the handle. *)
Record wav_handle : Type := {
  data_offset : Z;
  data_size : Z
}.

(** What the storage and the audio library answer.  [file_read k] is the
    value of the [k]-th [file.read(buffer, sizeof(buffer))] of a playback,
    [writeFrames k] tells whether the [writeFrames] call for that chunk
    returned [AUDIOLIB_ECODE_OK]. *)
Record world : Type := {
  parseChunk : string -> option wav_handle;
  sd_open : string -> bool;
  file_read : nat -> Z;
  writeFrames : nat -> bool
}.

(** The calls made on the audio player, the storage and the serial port. *)
Inductive event : Type :=
| StopPlayer
| StartPlayer
| WriteFrames (chunk : nat) (size : Z) (ok : bool)
| ParseChunk (filepath : string)
| SdOpen (name : string)
| FileSeek (pos : Z)
| FileRead (chunk : nat) (supply_size : Z)
| FileClose
| SerialPrint (msg : string)
| SerialPrintErr (chunk : nat).

Definition is_device_op (e : event) : bool :=
  match e with
  | StopPlayer | StartPlayer | WriteFrames _ _ _ => true
  | _ => false
  end.

Definition is_storage_op (e : event) : bool :=
  match e with
  | ParseChunk _ | SdOpen _ | FileSeek _ | FileRead _ _ | FileClose => true
  | _ => false
  end.


(** Whether the player runs after a sequence of calls. *)
Inductive player : Type := Stopped | Started.

Definition player_step (p : player) (e : event) : player :=
  match e with
  | StopPlayer => Stopped
  | StartPlayer => Started
  | _ => p
  end.

Definition player_after (p : player) (tr : list event) : player :=
  fold_left player_step tr p.

(** The chunks handed to [writeFrames], in call order. *)
Definition written_chunks (tr : list event) : list nat :=
  flat_map (fun e => match e with WriteFrames k _ _ => [k] | _ => [] end) tr.

Definition resetAudioPlayer : list event := [StopPlayer; StartPlayer].

(** The variables of the [while] loop of [playWavFile]: how many reads were
    made so far and the [uint32_t] counter. *)
Record loop_state : Type := {
  chunk : nat;
  remain_size : Z
}.

Inductive loop_exit : Type := PayloadDone | ReadError | WriteError.

Inductive step_result : Type :=
| Continue (st : loop_state)
| Exit (why : loop_exit) (st : loop_state).

(** [size_t supply_size = file.read(buffer, sizeof(buffer))]. *)
Definition supply_size (w : world) (k : nat) : Z := uint32 (file_read w k).

(** The loop test and one pass through the loop body. *)
Definition loop_body (w : world) (st : loop_state)
  : step_result * list event :=
  let k := chunk st in
  if 0 <? remain_size st then
    let supply := supply_size w k in
    if supply =? 0 then
      (Exit ReadError st,
       [FileRead k supply; SerialPrint "Error reading file"])
    else
      let st' := {| chunk := S k;
                    remain_size := uint32 (remain_size st - supply) |} in
      if writeFrames w k then
        (Continue st', [FileRead k supply; WriteFrames k supply true])
      else
        (Exit WriteError st',
         [FileRead k supply; WriteFrames k supply false;
          SerialPrint "Error writing frames: "; SerialPrintErr k])
  else (Exit PayloadDone st, []).

(** The [while] loop; [fuel] bounds the number of passes. *)
Fixpoint stream_loop (fuel : nat) (w : world) (st : loop_state)
  : option (loop_exit * loop_state * list event) :=
  match fuel with
  | O => None
  | S fuel' =>
      match loop_body w st with
      | (Exit why st', evs) => Some (why, st', evs)
      | (Continue st', evs) =>
          match stream_loop fuel' w st' with
          | Some (why, st'', tr) => Some (why, st'', evs ++ tr)
          | None => None
          end
      end
  end.

Definition loop_start (handle : wav_handle) : loop_state :=
  {| chunk := 0; remain_size := uint32 (data_size handle) |}.

Definition playWavFile (fuel : nat) (w : world) (handle : wav_handle)
  : option (list event) :=
  match stream_loop fuel w (loop_start handle) with
  | Some (_, _, tr) =>
      Some (FileSeek (data_offset handle) :: StopPlayer
              :: tr ++ [StartPlayer; FileClose])
  | None => None
  end.

Definition playSound (fuel : nat) (w : world) (scale_index : Z)
  : option (list event) :=
  if (scale_index <? 0) || (SCALE_SIZE <=? scale_index) then
    Some (resetAudioPlayer ++ [SerialPrint "Invalid scale index"])
  else
    let name := nth (Z.to_nat scale_index) SCALE_FILES ""%string in
    let filepath := ("/mnt/sd0/" ++ name)%string in
    match parseChunk w filepath with
    | None =>
        Some (resetAudioPlayer
                ++ [ParseChunk filepath;
                    SerialPrint "WAV parser error for file: ";
                    SerialPrint filepath])
    | Some handle =>
        if sd_open w name then
          match playWavFile fuel w handle with
          | Some tr =>
              Some (resetAudioPlayer
                      ++ [ParseChunk filepath; SdOpen name]
                      ++ tr ++ [FileClose])
          | None => None
          end
        else
          Some (resetAudioPlayer
                  ++ [ParseChunk filepath; SdOpen name;
                      SerialPrint "File open error"])
    end.

(** The states the loop passes through: [loop_reaches w st st'] when the
    loop started in [st] comes to test its condition in [st']. *)
Inductive loop_reaches (w : world) (st : loop_state) : loop_state -> Prop :=
| reaches_start : loop_reaches w st st
| reaches_next st1 st2 evs :
    loop_reaches w st st1 ->
    loop_body w st1 = (Continue st2, evs) ->
    loop_reaches w st st2.

(** Every read the loop makes returns at most the remaining byte count. *)
Definition reads_within_remaining (w : world) (st : loop_state) : Prop :=
  forall st', loop_reaches w st st' ->
    0 < remain_size st' -> supply_size w (chunk st') <= remain_size st'.

(** The calls of a pass through the loop body that delivers chunk [k], and
    the calls of the pass that leaves the loop. *)
Definition delivered (w : world) (k : nat) : list event :=
  [FileRead k (supply_size w k); WriteFrames k (supply_size w k) true].

Definition exit_events (w : world) (why : loop_exit) (k : nat) : list event :=
  match why with
  | PayloadDone => []
  | ReadError =>
      [FileRead k (supply_size w k); SerialPrint "Error reading file"]
  | WriteError =>
      [FileRead k (supply_size w k); WriteFrames k (supply_size w k) false;
       SerialPrint "Error writing frames: "; SerialPrintErr k]
  end.

(** Worlds to run the code in.  [file_of_length len] is a file with [len]
    bytes from the data offset on, read [BUFFER_SIZE] bytes at a time. *)
Definition file_of_length (len : Z) (k : nat) : Z :=
  Z.max 0 (Z.min BUFFER_SIZE (len - BUFFER_SIZE * Z.of_nat k)).

(** Every asset is found, its header announces [size] bytes of payload at
    offset 44. *)
Definition world_with (size : Z) (reads : nat -> Z) (writes : nat -> bool)
  : world :=
  {| parseChunk := fun _ => Some {| data_offset := 44; data_size := size |};
     sd_open := fun _ => true;
     file_read := reads;
     writeFrames := writes |}.

(** An asset whose header announces five chunks (5120 bytes) in a file that
    ends after three: the fourth read returns nothing. *)
Definition truncated_asset : world :=
  world_with 5120 (file_of_length 3072) (fun _ => true).

Definition truncated_playback : list event :=
  [FileSeek 44; StopPlayer;
   FileRead 0 1024; WriteFrames 0 1024 true;
   FileRead 1 1024; WriteFrames 1 1024 true;
   FileRead 2 1024; WriteFrames 2 1024 true;
   FileRead 3 0; SerialPrint "Error reading file";
   StartPlayer; FileClose].

(** A payload of 1500 bytes in a file that ends with it, in a file that
    goes on for another 548 bytes, and in a source that never runs dry. *)
Definition exact_asset : world :=
  world_with 1500 (file_of_length 1500) (fun _ => true).

Definition trailing_asset : world :=
  world_with 1500 (file_of_length 2048) (fun _ => true).


(** The file [playSound] opens for an index and the path it has parsed. *)
Definition scale_file (scale_index : Z) : string :=
  nth (Z.to_nat scale_index) SCALE_FILES ""%string.

Definition asset_path (scale_index : Z) : string :=
  ("/mnt/sd0/" ++ scale_file scale_index)%string.

(** The sizes handed to [writeFrames], the bytes they add up to, and the
    bytes of the calls that returned [AUDIOLIB_ECODE_OK]. *)
Definition written_sizes (tr : list event) : list Z :=
  flat_map (fun e => match e with WriteFrames _ n _ => [n] | _ => [] end) tr.

Definition bytes_offered (tr : list event) : Z :=
  fold_right Z.add 0 (written_sizes tr).

Definition bytes_accepted (tr : list event) : Z :=
  fold_right Z.add 0
    (flat_map (fun e => match e with WriteFrames _ n true => [n] | _ => [] end)
       tr).

Definition is_close (e : event) : bool :=
  match e with FileClose => true | _ => false end.

Definition is_write (e : event) : bool :=
  match e with WriteFrames _ _ _ => true | _ => false end.

(** The calls made on an opened file and the frames written from it. *)
Definition is_streaming (e : event) : bool :=
  match e with
  | FileSeek _ | FileRead _ _ | FileClose | WriteFrames _ _ _ => true
  | _ => false
  end.




End AudioManager.

(** ** [class JumpSoundSystem] *)
Module JumpSoundSystem.
Import Constants.
Import AccelerometerManager.

(** [calculateScaleIndex].  [map] returns a [long] that is stored in a
    [float]; the values in play are integers of at most three digits, which
    a [float] holds exactly, so the [float] is modelled as a rational. *)
Definition calculateScaleIndex (acceleration : Z) : Z :=
  let acceleration :=
    Arduino.constrain acceleration MIN_ACCELERATION MAX_ACCELERATION in
  let mapped : Q :=
    inject_Z (Arduino.map acceleration MIN_ACCELERATION MAX_ACCELERATION
                          0 (SCALE_SIZE - 1)) in
  Arduino.round mapped.

(** What one pass of [update] asks of the audio manager and prints. *)
Inductive action : Type :=
| PlaySound (scale_index : Z)
| PrintPeak (peak : Z).

(** [update]: [raw] and [now] are the reading and the clock value that
    [detectJump] obtains during this pass. *)
Definition update (acc : AccelerometerManager.t) (raw now : Z)
  : AccelerometerManager.t * list action :=
  let (acc1, jumped) := detectJump acc raw now in
  if jumped then
    let scale_index := calculateScaleIndex (getPeakAcceleration acc1) in
    (resetPeakAcceleration acc1,
     [PlaySound scale_index; PrintPeak (getPeakAcceleration acc1)])
  else (acc1, []).

(** [loop()] called once per observation: the final detector state and what
    each pass did. *)
Fixpoint run_loop (acc : AccelerometerManager.t) (obs : list (Z * Z))
  : AccelerometerManager.t * list (list action) :=
  match obs with
  | [] => (acc, [])
  | (raw, now) :: rest =>
      let (acc1, acts) := update acc raw now in
      let (acc2, later) := run_loop acc1 rest in
      (acc2, acts :: later)
  end.

(** The peak values printed, and the indices played, over a run. *)
Definition reported_peaks (log : list (list action)) : list Z :=
  flat_map (fun a => match a with PrintPeak p => [p] | _ => [] end)
           (List.concat log).

Definition played_indices (log : list (list action)) : list Z :=
  flat_map (fun a => match a with PlaySound i => [i] | _ => [] end)
           (List.concat log).

(** The scale mapping as the specification words it: the clamped peak is
    interpolated over the reals from [[MIN_ACCELERATION, MAX_ACCELERATION]]
    onto [[0, SCALE_SIZE - 1]] and then rounded, halves away from zero. *)
Definition mapToScale_spec (peak : Z) : Z :=
  let clamped :=
    Z.max MIN_ACCELERATION (Z.min MAX_ACCELERATION peak) in
  Arduino.round
    ((inject_Z (clamped - MIN_ACCELERATION) * inject_Z (SCALE_SIZE - 1))
       / inject_Z (MAX_ACCELERATION - MIN_ACCELERATION))%Q.

(** The operations that change the detector state: an observation by
    [detectJump] and the [resetPeakAcceleration] of the control loop. *)
Inductive op : Type :=
| Observe (raw now : Z)
| ResetPeak.

Definition apply_op (acc : AccelerometerManager.t) (o : op)
  : AccelerometerManager.t :=
  match o with
  | Observe raw now => fst (detectJump acc raw now)
  | ResetPeak => resetPeakAcceleration acc
  end.

(** A sequence of observations and nothing else. *)
Definition observations (obs : list (Z * Z)) : list op :=
  List.map (fun '(raw, now) => Observe raw now) obs.

(** The operations one pass of [update] performs on the detector. *)
Definition update_ops (acc : AccelerometerManager.t) (raw now : Z) : list op :=
  Observe raw now
    :: (if snd (detectJump acc raw now) then [ResetPeak] else []).

(** The detector states a sequence of operations passes through, the
    starting state first. *)
Fixpoint states (acc : AccelerometerManager.t) (ops : list op)
  : list AccelerometerManager.t :=
  acc :: match ops with
         | [] => []
         | o :: rest => states (apply_op acc o) rest
         end.

(** The detector states between the passes of the control loop. *)
Fixpoint states_between_passes (acc : AccelerometerManager.t)
  (obs : list (Z * Z)) : list AccelerometerManager.t :=
  acc :: match obs with
         | [] => []
         | (raw, now) :: rest =>
             states_between_passes (fst (update acc raw now)) rest
         end.

(** The peak rule on a sequence of states: from a jumping state the next
    state either still jumps with a peak that is not lower, or has landed
    with peak zero. *)
Fixpoint peak_rule (l : list AccelerometerManager.t) : Prop :=
  match l with
  | [] => True
  | s :: tl =>
      match tl with
      | [] => True
      | s' :: _ =>
          (is_jumping s = true ->
           if is_jumping s'
           then peak_acceleration s <= peak_acceleration s'
           else peak_acceleration s' = 0)
          /\ peak_rule tl
      end
  end.

(** The sample sequence of the specification's scenario, read at the clock
    values [t1] to [t5]. *)
Definition scenario (t1 t2 t3 t4 t5 : Z) : list (Z * Z) :=
  [(50, t1); (50, t2); (120, t3); (150, t4); (60, t5)].

(** The detector after a sequence of operations. *)
Definition run_ops (acc : AccelerometerManager.t) (ops : list op)
  : AccelerometerManager.t :=
  fold_left apply_op ops acc.

End JumpSoundSystem.

(** * Properties *)

(** ** Fixed-width arithmetic *)
Module MachineIntFacts.

Lemma int16_id (x : Z) : -32768 <= x <= 32767 -> int16 x = x.
Proof.
  intros Hx. unfold int16.
  rewrite Z.mod_small by lia. lia.
Qed.

Lemma int16_range (x : Z) : -32768 <= int16 x <= 32767.
Proof.
  unfold int16.
  pose proof (Z.mod_pos_bound (x + 32768) 65536 eq_refl). lia.
Qed.

Lemma uint32_id (x : Z) : 0 <= x < 4294967296 -> uint32 x = x.
Proof. intros Hx. unfold uint32. now apply Z.mod_small. Qed.

Lemma uint32_range (x : Z) : 0 <= uint32 x < 4294967296.
Proof. unfold uint32. now apply Z.mod_pos_bound. Qed.

(** The unsigned difference is the mathematical one as long as the clock
    has not gone backwards. *)
Lemma sub32_exact (a b : Z) :
  0 <= b -> b <= a -> a < 4294967296 -> sub32 a b = a - b.
Proof. intros. unfold sub32. apply uint32_id. lia. Qed.

(** The stored absolute value is the mathematical one for every [int16_t]
    reading but [INT16_MIN], which is stored back as itself. *)
Lemma abs16_exact (z : Z) : -32768 < z <= 32767 -> abs16 z = Z.abs z.
Proof. intros. unfold abs16. apply int16_id. lia. Qed.

Lemma abs16_int16_min : abs16 (-32768) = -32768.
Proof. reflexivity. Qed.

(** A counter that is decremented by no more than its value does not wrap. *)
Lemma uint32_sub_small (r n : Z) :
  0 <= n <= r -> r < 4294967296 -> uint32 (r - n) = r - n.
Proof. intros. apply uint32_id. lia. Qed.


End MachineIntFacts.

(** ** The jump detector *)
Module DetectorProofs.
Import Constants AccelerometerManager MachineIntFacts.

#[local] Ltac split_ifs :=
  repeat match goal with
    | |- context [?a <? ?b] => destruct (Z.ltb_spec a b)
    | |- context [is_jumping ?s] =>
        let E := fresh "Ej" in destruct (is_jumping s) eqn:E
    | _ => progress cbn [andb negb fst snd
                         peak_acceleration is_jumping last_jump_time] in *
    end.

(** When [detectJump] returns [true] it has just stamped the clock value,
    and the guard of its first [if] held. *)
Lemma detectJump_true (s : t) (raw now : Z) :
  snd (detectJump s raw now) = true ->
  fst (detectJump s raw now)
    = {| peak_acceleration := abs16 raw;
         is_jumping := true;
         last_jump_time := now |}
  /\ JUMP_THRESHOLD < abs16 raw
  /\ is_jumping s = false
  /\ JUMP_COOLDOWN < sub32 now (last_jump_time s).
Proof.
  unfold detectJump. split_ifs; intros Hev; try discriminate Hev.
  all: repeat split; solve [assumption | reflexivity].
Qed.

(** When it returns [false] the trigger stamp is the one it had. *)
Lemma detectJump_false (s : t) (raw now : Z) :
  snd (detectJump s raw now) = false ->
  last_jump_time (fst (detectJump s raw now)) = last_jump_time s.
Proof.
  unfold detectJump. split_ifs; intros Hev; try discriminate Hev; reflexivity.
Qed.

(** No event comes out of a jumping detector, and its peak either rises
    (still jumping) or is cleared (landed). *)
Lemma detectJump_jumping (s : t) (raw now : Z) :
  is_jumping s = true ->
  snd (detectJump s raw now) = false
  /\ (is_jumping (fst (detectJump s raw now)) = true ->
      peak_acceleration s <= peak_acceleration (fst (detectJump s raw now)))
  /\ (is_jumping (fst (detectJump s raw now)) = false ->
      peak_acceleration (fst (detectJump s raw now)) = 0).
Proof.
  intros Hj. unfold detectJump. rewrite Hj.
  split_ifs; repeat split; intros; try congruence; lia.
Qed.

(** The four ways through [detectJump], as equations. *)
Lemma detectJump_rest (s : t) (raw now : Z) :
  is_jumping s = false -> abs16 raw <= JUMP_THRESHOLD ->
  detectJump s raw now = (s, false).
Proof.
  intros Hidle Hz. unfold detectJump. rewrite Hidle.
  split_ifs; solve [reflexivity | lia | congruence].
Qed.

Lemma detectJump_fire (s : t) (raw now : Z) :
  is_jumping s = false -> JUMP_THRESHOLD < abs16 raw ->
  JUMP_COOLDOWN < sub32 now (last_jump_time s) ->
  detectJump s raw now
  = ({| peak_acceleration := abs16 raw;
        is_jumping := true;
        last_jump_time := now |}, true).
Proof.
  intros Hidle Hz Hcool. unfold detectJump. rewrite Hidle.
  apply Z.ltb_lt in Hz, Hcool. now rewrite Hz, Hcool.
Qed.

Lemma detectJump_rise (s : t) (raw now : Z) :
  is_jumping s = true -> JUMP_THRESHOLD <= abs16 raw ->
  detectJump s raw now
  = ({| peak_acceleration := Z.max (peak_acceleration s) (abs16 raw);
        is_jumping := true;
        last_jump_time := last_jump_time s |}, false).
Proof.
  intros Hj Hz. destruct s as [p j l]. cbn [is_jumping] in Hj. subst j.
  unfold detectJump. cbn [is_jumping peak_acceleration last_jump_time].
  split_ifs; try lia; f_equal; f_equal; lia.
Qed.

Lemma detectJump_land (s : t) (raw now : Z) :
  is_jumping s = true -> abs16 raw < JUMP_THRESHOLD ->
  detectJump s raw now
  = ({| peak_acceleration := 0;
        is_jumping := false;
        last_jump_time := last_jump_time s |}, false).
Proof.
  intros Hj Hz. unfold detectJump. rewrite Hj.
  split_ifs; solve [reflexivity | lia | congruence].
Qed.

(** One observation of the trigger list. *)
Lemma trigger_times_cons (s : t) (raw now : Z) (rest : list (Z * Z)) :
  trigger_times s ((raw, now) :: rest)
  = if snd (detectJump s raw now)
    then now :: trigger_times (fst (detectJump s raw now)) rest
    else trigger_times (fst (detectJump s raw now)) rest.
Proof. cbn [trigger_times]. now destruct (detectJump s raw now). Qed.

(** With a clock that never goes back behind the last trigger stamp, every
    trigger lies more than the cooldown after that stamp, and more than the
    cooldown after every earlier trigger. *)
Lemma trigger_times_spaced (obs : list (Z * Z)) :
  forall s : t,
    0 <= last_jump_time s ->
    StronglySorted Z.le (last_jump_time s :: List.map snd obs) ->
    Forall (fun now => now < 4294967296) (List.map snd obs) ->
    Forall (fun now => JUMP_COOLDOWN < now - last_jump_time s)
           (trigger_times s obs)
    /\ ForallOrdPairs (fun t1 t2 => JUMP_COOLDOWN < t2 - t1)
                      (trigger_times s obs).
Proof.
  induction obs as [|[raw now] rest IH]; intros s Hpos Hsorted Hlt.
  - split; constructor.
  - cbn [List.map snd] in Hsorted, Hlt.
    apply StronglySorted_inv in Hsorted as [Htail Hhead].
    apply Forall_cons_iff in Hhead as [Hnow Hhead].
    apply Forall_cons_iff in Hlt as [Hnow32 Hlt].
    rewrite trigger_times_cons.
    destruct (snd (detectJump s raw now)) eqn:Hev.
    + destruct (detectJump_true s raw now Hev) as (Hs' & _ & _ & Hcool).
      rewrite sub32_exact in Hcool by lia.
      rewrite Hs'.
      destruct (IH {| peak_acceleration := abs16 raw;
                      is_jumping := true;
                      last_jump_time := now |}) as [Hfar Hpairs];
        cbn [last_jump_time]; try assumption; try lia.
      split.
      * constructor; [assumption|].
        eapply Forall_impl; [|exact Hfar]. cbn. intros; lia.
      * constructor; assumption.
    + pose proof (detectJump_false s raw now Hev) as Hlast.
      rewrite <- Hlast in Hpos, Hhead |- *.
      apply IH; try assumption.
      constructor; [|assumption].
      now apply StronglySorted_inv in Htail.
Qed.

(** C3 (as the code has it): for every [int16_t] reading other than
    [INT16_MIN], one call of [detectJump] returns [true] exactly when the
    absolute value of the reading is strictly above [JUMP_THRESHOLD], the
    detector is not jumping and the unsigned 32-bit difference
    [current_time - last_jump_time] is strictly above [JUMP_COOLDOWN]; it
    then enters the jumping state with the absolute reading as peak and the
    clock value as stamp.  The detector never enters the jumping state
    without returning [true], and never returns [true] while jumping (so
    neither while it stays in the jump nor when it lands).  The unsigned
    difference is the time that has passed since the stamp, also when the
    clock has wrapped around in between, and it is [now - last_jump_time]
    whenever the clock is not behind the stamp. *)
Theorem detectJump_triggers_iff (s : t) (raw now : Z) :
  -32768 < raw <= 32767 ->
  (snd (detectJump s raw now) = true <->
     JUMP_THRESHOLD < Z.abs raw
     /\ is_jumping s = false
     /\ JUMP_COOLDOWN < sub32 now (last_jump_time s))
  /\ (snd (detectJump s raw now) = true ->
      fst (detectJump s raw now)
      = {| peak_acceleration := Z.abs raw;
           is_jumping := true;
           last_jump_time := now |})
  /\ (is_jumping s = false ->
      is_jumping (fst (detectJump s raw now)) = true ->
      snd (detectJump s raw now) = true)
  /\ (is_jumping s = true -> snd (detectJump s raw now) = false)
  /\ (0 <= last_jump_time s <= now -> now < 4294967296 ->
      sub32 now (last_jump_time s) = now - last_jump_time s)
  /\ (forall d,
        0 <= last_jump_time s < 4294967296 -> 0 <= d < 4294967296 ->
        now = uint32 (last_jump_time s + d) ->
        sub32 now (last_jump_time s) = d).
Proof.
  intros Hraw. rewrite <- (abs16_exact raw Hraw).
  split; [split|split; [|split; [|split; [|split]]]].
  - intros Hev. apply (detectJump_true s raw now Hev).
  - intros (Hz & Hidle & Hcool). now rewrite detectJump_fire.
  - intros Hev. apply (detectJump_true s raw now Hev).
  - intros Hidle Hj.
    destruct (snd (detectJump s raw now)) eqn:Hev; [reflexivity|].
    exfalso.
    destruct (Z_lt_le_dec JUMP_THRESHOLD (abs16 raw)) as [Hz|Hz];
      [destruct (Z_lt_le_dec JUMP_COOLDOWN (sub32 now (last_jump_time s)))
         as [Hc|Hc]|].
    + rewrite detectJump_fire in Hev by assumption. discriminate Hev.
    + unfold detectJump in Hj. rewrite Hidle in Hj.
      apply Z.ltb_ge in Hc. rewrite Hc, andb_false_r in Hj.
      rewrite andb_false_r, Hidle in Hj. cbn in Hj. congruence.
    + rewrite detectJump_rest in Hj by assumption. cbn in Hj. congruence.
  - intros Hj. apply (detectJump_jumping s raw now Hj).
  - intros. apply sub32_exact; lia.
  - intros d Hlast Hd ->. unfold sub32, uint32.
    rewrite Zminus_mod_idemp_l.
    replace (last_jump_time s + d - last_jump_time s) with d by lia.
    now apply Z.mod_small.
Qed.

(** A reading of -120 at 1000 ms triggers the initial detector; a reading of
    150 at 1600 ms, cooldown long over, does not trigger the jumping one. *)
Lemma detectJump_triggers_iff_witness :
  snd (detectJump initial (-120) 1000) = true
  /\ snd (detectJump (fst (detectJump initial (-120) 1000)) 150 1600) = false.
Proof.
  split.
  - apply (proj1 (detectJump_triggers_iff initial (-120) 1000
                    (conj eq_refl (proj1 (Z.leb_le (-120) 32767) eq_refl)))).
    split; [reflexivity|split; reflexivity].
  - apply (proj1 (proj2 (proj2 (proj2
             (detectJump_triggers_iff
                (fst (detectJump initial (-120) 1000)) 150 1600
                (conj eq_refl (proj1 (Z.leb_le 150 32767) eq_refl))))))).
    reflexivity.
Defined.

(** C3 as stated fails, read with the absolute value and the difference of
    the integers.  A detector last triggered 100 ms before the clock wrapped
    around triggers at clock value 450 on a reading of 120, although 450
    minus the stamp is negative; and the initial detector does not trigger
    at 1000 ms on the reading [INT16_MIN], whose absolute value is 32768. *)
Lemma trigger_rule_fails_as_stated :
  ~ (snd (detectJump
            {| peak_acceleration := 0; is_jumping := false;
               last_jump_time := 4294967196 |} 120 450) = true
     <-> JUMP_THRESHOLD < Z.abs 120
         /\ is_jumping {| peak_acceleration := 0; is_jumping := false;
                          last_jump_time := 4294967196 |} = false
         /\ JUMP_COOLDOWN
            < 450 - last_jump_time
                      {| peak_acceleration := 0; is_jumping := false;
                         last_jump_time := 4294967196 |})
  /\ ~ (snd (detectJump initial (-32768) 1000) = true
        <-> JUMP_THRESHOLD < Z.abs (-32768)
            /\ is_jumping initial = false
            /\ JUMP_COOLDOWN < 1000 - last_jump_time initial).
Proof.
  split.
  - intros [Hfwd _].
    assert (Hev : snd (detectJump
                         {| peak_acceleration := 0; is_jumping := false;
                            last_jump_time := 4294967196 |} 120 450) = true)
      by reflexivity.
    destruct (Hfwd Hev) as (_ & _ & Hcool).
    cbn [last_jump_time] in Hcool. unfold JUMP_COOLDOWN in Hcool. lia.
  - intros [_ Hback].
    assert (Hno : snd (detectJump initial (-32768) 1000) = false)
      by reflexivity.
    rewrite Hback in Hno; [discriminate Hno|].
    split; [reflexivity|split; reflexivity].
Qed.

(** C2: for observations whose clock values never decrease (and are
    [unsigned long] values), fed to the detector from its initial state, any
    two triggers are more than [JUMP_COOLDOWN] milliseconds apart; in
    particular never less than [JUMP_COOLDOWN]. *)
Theorem triggers_respect_cooldown (obs : list (Z * Z)) :
  Sorted Z.le (List.map snd obs) ->
  Forall (fun now => 0 <= now < 4294967296) (List.map snd obs) ->
  ForallOrdPairs (fun t1 t2 => JUMP_COOLDOWN < t2 - t1)
                 (trigger_times initial obs).
Proof.
  intros Hsorted Hrange.
  apply trigger_times_spaced.
  - cbn. lia.
  - cbn [initial last_jump_time]. constructor.
    + apply Sorted_StronglySorted; [|assumption].
      intros x y z0 Hxy Hyz. lia.
    + eapply Forall_impl; [|exact Hrange]. cbn. intros; lia.
  - eapply Forall_impl; [|exact Hrange]. cbn. intros; lia.
Qed.

(** Five observations with above-threshold readings at 1000, 1200 and 1600
    ms: the one at 1200 ms falls into the cooldown. *)
Lemma triggers_respect_cooldown_witness :
  trigger_times initial
    [(120, 1000); (50, 1100); (120, 1200); (50, 1300); (-120, 1600)]
  = [1000; 1600]
  /\ ForallOrdPairs (fun t1 t2 => JUMP_COOLDOWN < t2 - t1)
       (trigger_times initial
          [(120, 1000); (50, 1100); (120, 1200); (50, 1300); (-120, 1600)]).
Proof.
  split; [reflexivity|].
  apply triggers_respect_cooldown; cbn [List.map snd].
  - repeat (constructor; try (apply Z.leb_le; reflexivity)).
  - repeat (constructor;
            try (split; [apply Z.leb_le|apply Z.ltb_lt]; reflexivity)).
Defined.

(** While the detector stays in the jump its peak never goes down. *)
Lemma peaks_while_jumping_sorted (obs : list (Z * Z)) :
  forall s : t,
    is_jumping s = true ->
    StronglySorted Z.le (peak_acceleration s :: peaks_while_jumping s obs).
Proof.
  induction obs as [|[raw now] rest IH]; intros s Hj; cbn [peaks_while_jumping].
  - repeat constructor.
  - destruct (detectJump_jumping s raw now Hj) as (_ & Hup & _).
    destruct (is_jumping (fst (detectJump s raw now))) eqn:Hj';
      [|repeat constructor].
    specialize (IH _ Hj'). specialize (Hup eq_refl).
    constructor; [assumption|].
    constructor; [assumption|].
    apply StronglySorted_inv in IH as [_ Hall].
    eapply Forall_impl; [|exact Hall]. cbn. intros; lia.
Qed.

(** The observation that ends the jump leaves the peak at zero. *)
Lemma landing_peak_zero (obs : list (Z * Z)) :
  forall (s : t) (p : Z),
    is_jumping s = true -> landing_peak s obs = Some p -> p = 0.
Proof.
  induction obs as [|[raw now] rest IH]; intros s p Hj; cbn [landing_peak].
  - discriminate.
  - destruct (detectJump_jumping s raw now Hj) as (_ & _ & Hzero).
    destruct (is_jumping (fst (detectJump s raw now))) eqn:Hj'.
    + now apply IH.
    + intros [= <-]. now apply Hzero.
Qed.

End DetectorProofs.

(** ** The scale mapping *)
Module ScaleProofs.
Import Constants JumpSoundSystem.

(** Rounding a value that is already an integer changes nothing. *)
Lemma round_inject_Z (n : Z) : Arduino.round (inject_Z n) = n.
Proof.
  unfold Arduino.round.
  destruct (Qle_bool 0 (inject_Z n)).
  - unfold Qfloor, Qplus, inject_Z; cbn [Qnum Qden].
    replace (n * 2 + 1 * 1) with (n * 2 + 1) by lia.
    rewrite Z.div_add_l by lia. change (1 / Z.pos (1 * 2)) with 0. lia.
  - unfold Qceiling, Qfloor, Qminus, Qplus, Qopp, inject_Z; cbn [Qnum Qden].
    match goal with
    | |- - (?a / _) = _ => replace a with (- n * 2 + 1) by lia
    end.
    rewrite Z.div_add_l by lia. change (1 / Z.pos (1 * 2)) with 0. lia.
Qed.

(** So [calculateScaleIndex] is the integer quotient [map] computes. *)
Lemma calculateScaleIndex_quotient (acceleration : Z) :
  calculateScaleIndex acceleration
  = (Arduino.constrain acceleration MIN_ACCELERATION MAX_ACCELERATION
     - MIN_ACCELERATION) * (SCALE_SIZE - 1)
    / (MAX_ACCELERATION - MIN_ACCELERATION).
Proof.
  unfold calculateScaleIndex. rewrite round_inject_Z.
  unfold Arduino.map. rewrite Z.add_0_r, Z.sub_0_r.
  apply Z.quot_div_nonneg.
  - unfold Arduino.constrain, MIN_ACCELERATION, MAX_ACCELERATION, SCALE_SIZE.
    destruct (Z.ltb_spec acceleration 80); [lia|].
    destruct (Z.ltb_spec 400 acceleration); lia.
  - reflexivity.
Qed.

Lemma constrain_range (amt low high : Z) :
  low <= high -> low <= Arduino.constrain amt low high <= high.
Proof.
  intros Hlh. unfold Arduino.constrain.
  destruct (Z.ltb_spec amt low); [lia|].
  destruct (Z.ltb_spec high amt); lia.
Qed.

(** The products [map] forms stay far inside a 32-bit [long]. *)
Lemma map_no_overflow (acceleration : Z) :
  let x := Arduino.constrain acceleration MIN_ACCELERATION MAX_ACCELERATION in
  0 <= (x - MIN_ACCELERATION) * (SCALE_SIZE - 1 - 0) <= 2240.
Proof.
  cbv zeta.
  pose proof (constrain_range acceleration MIN_ACCELERATION MAX_ACCELERATION).
  unfold MIN_ACCELERATION, MAX_ACCELERATION, SCALE_SIZE in *. lia.
Qed.

(** C6: for every integer [acceleration] (every [int16_t] in particular,
    negative or far outside the bounds) [calculateScaleIndex] returns an
    index in [[0, SCALE_SIZE - 1]]; below [MIN_ACCELERATION] it returns 0,
    above [MAX_ACCELERATION] it returns [SCALE_SIZE - 1]; at 80 it returns 0
    and at 400 it returns 7. *)
Theorem calculateScaleIndex_in_range (acceleration : Z) :
  0 <= calculateScaleIndex acceleration <= SCALE_SIZE - 1
  /\ (acceleration < MIN_ACCELERATION ->
      calculateScaleIndex acceleration = 0)
  /\ (MAX_ACCELERATION < acceleration ->
      calculateScaleIndex acceleration = SCALE_SIZE - 1)
  /\ calculateScaleIndex 80 = 0
  /\ calculateScaleIndex 400 = 7.
Proof.
  rewrite !calculateScaleIndex_quotient.
  pose proof (constrain_range acceleration MIN_ACCELERATION MAX_ACCELERATION)
    as Hc.
  unfold MIN_ACCELERATION, MAX_ACCELERATION, SCALE_SIZE in *.
  change (8 - 1) with 7. change (400 - 80) with 320.
  specialize (Hc ltac:(lia)).
  split; [|split; [|split; [|split]]].
  - split.
    + apply Z.div_pos; lia.
    + apply Z.div_le_upper_bound; lia.
  - intros Hlow. unfold Arduino.constrain.
    destruct (Z.ltb_spec acceleration 80); [reflexivity|lia].
  - intros Hhigh. unfold Arduino.constrain.
    destruct (Z.ltb_spec acceleration 80); [lia|].
    destruct (Z.ltb_spec 400 acceleration); [reflexivity|lia].
  - reflexivity.
  - reflexivity.
Qed.

(** The extreme [int16_t] values. *)
Lemma calculateScaleIndex_in_range_witness :
  calculateScaleIndex (-32768) = 0 /\ calculateScaleIndex 32767 = 7.
Proof.
  split.
  - apply (proj1 (proj2 (calculateScaleIndex_in_range (-32768)))).
    reflexivity.
  - apply (proj1 (proj2 (proj2 (calculateScaleIndex_in_range 32767)))).
    reflexivity.
Defined.

(** C5: at the midpoint 240 the interpolated value is 3.5.  The rounding of
    the specification gives 4; [calculateScaleIndex] gives 3, because [map]
    has already divided in integers (for every input it returns the integer
    quotient, rounded down) and [round] only sees the integer. *)
Theorem calculateScaleIndex_midpoint :
  calculateScaleIndex 240 = 3
  /\ mapToScale_spec 240 = 4
  /\ forall acceleration : Z,
       calculateScaleIndex acceleration
       = (Arduino.constrain acceleration MIN_ACCELERATION MAX_ACCELERATION
          - MIN_ACCELERATION) * (SCALE_SIZE - 1)
         / (MAX_ACCELERATION - MIN_ACCELERATION).
Proof.
  split; [|split].
  - rewrite calculateScaleIndex_quotient. reflexivity.
  - vm_compute. reflexivity.
  - exact calculateScaleIndex_quotient.
Qed.

End ScaleProofs.

(** ** The control loop and the detector *)
Module SystemProofs.
Import Constants AccelerometerManager JumpSoundSystem.
Import MachineIntFacts DetectorProofs.

(** A pass of [update] on a jumping detector is the bare observation: it
    plays nothing, prints nothing and resets nothing. *)
Lemma update_jumping (acc : AccelerometerManager.t) (raw now : Z) :
  is_jumping acc = true ->
  update acc raw now = (fst (detectJump acc raw now), []).
Proof.
  intros Hj. unfold update.
  destruct (detectJump_jumping acc raw now Hj) as (Hev & _).
  destruct (detectJump acc raw now) as [acc1 jumped].
  cbn [snd] in Hev. subst jumped. reflexivity.
Qed.

(** What a pass does to the detector is what its operations do. *)
Lemma update_as_ops (acc : AccelerometerManager.t) (raw now : Z) :
  fst (update acc raw now) = fold_left apply_op (update_ops acc raw now) acc.
Proof.
  unfold update, update_ops.
  destruct (detectJump acc raw now) as [acc1 jumped] eqn:E.
  destruct jumped; cbn [fold_left apply_op fst snd]; now rewrite E.
Qed.

(** The pass that triggers: the peak handed on is the triggering reading,
    and the detector is left jumping with a cleared peak. *)
Lemma update_trigger (acc : AccelerometerManager.t) (raw now : Z) :
  snd (detectJump acc raw now) = true ->
  update acc raw now
  = ({| peak_acceleration := 0; is_jumping := true; last_jump_time := now |},
     [PlaySound (calculateScaleIndex (abs16 raw)); PrintPeak (abs16 raw)]).
Proof.
  intros Hev. unfold update.
  destruct (detectJump_true acc raw now Hev) as (Hacc & _).
  destruct (detectJump acc raw now) as [acc1 jumped].
  cbn [fst snd] in Hev, Hacc. subst. reflexivity.
Qed.

Lemma peak_rule_observations (obs : list (Z * Z)) :
  forall acc, peak_rule (states acc (observations obs)).
Proof.
  induction obs as [|[raw now] rest IH]; intros acc.
  - exact I.
  - specialize (IH (fst (detectJump acc raw now))).
    unfold observations in *.
    cbn [List.map states apply_op peak_rule] in *.
    destruct (List.map _ rest); (split; [|exact IH]); intros Hj;
      destruct (detectJump_jumping acc raw now Hj) as (_ & Hup & Hzero);
      destruct (is_jumping (fst (detectJump acc raw now))); auto.
Qed.

Lemma peak_rule_between_passes (obs : list (Z * Z)) :
  forall acc, peak_rule (states_between_passes acc obs).
Proof.
  induction obs as [|[raw now] rest IH]; intros acc.
  - exact I.
  - specialize (IH (fst (update acc raw now))).
    cbn [states_between_passes peak_rule] in *.
    destruct rest as [|[raw' now'] rest'];
      (split; [|exact IH]); intros Hj;
      rewrite (update_jumping acc raw now Hj); cbn [fst];
      destruct (detectJump_jumping acc raw now Hj) as (_ & Hup & Hzero);
      destruct (is_jumping (fst (detectJump acc raw now))); auto.
Qed.

(** C1 (as the code has it): on the samples 50, 50, 120, 150, 60, from any
    detector that is not jumping and whose cooldown has passed at the third
    sample, there is exactly one trigger, at the third sample; the pass that
    triggers plays index 0 and prints the peak 120, the triggering reading.
    The detector itself goes on to record 150 at the fourth sample and is
    back at rest with peak 0 after the fifth. *)
Theorem scenario_reports_trigger_peak
  (acc : AccelerometerManager.t) (t1 t2 t3 t4 t5 : Z) :
  is_jumping acc = false ->
  JUMP_COOLDOWN < sub32 t3 (last_jump_time acc) ->
  trigger_times acc (scenario t1 t2 t3 t4 t5) = [t3]
  /\ snd (run_loop acc (scenario t1 t2 t3 t4 t5))
     = [[]; []; [PlaySound 0; PrintPeak 120]; []; []]
  /\ reported_peaks (snd (run_loop acc (scenario t1 t2 t3 t4 t5))) = [120]
  /\ fst (run_loop acc (firstn 4 (scenario t1 t2 t3 t4 t5)))
     = {| peak_acceleration := 150; is_jumping := true;
          last_jump_time := t3 |}
  /\ fst (run_loop acc (scenario t1 t2 t3 t4 t5))
     = {| peak_acceleration := 0; is_jumping := false;
          last_jump_time := t3 |}.
Proof.
  intros Hidle Hcool.
  pose proof (fun now => detectJump_rest acc 50 now Hidle ltac:(now cbv))
    as Hrest.
  pose proof (detectJump_fire acc 120 t3 Hidle eq_refl Hcool) as Hfire.
  change (abs16 120) with 120 in Hfire.
  pose (jumping p :=
          {| peak_acceleration := p; is_jumping := true;
             last_jump_time := t3 |}).
  pose proof (fun p => detectJump_rise (jumping p) 150 t4 eq_refl
                         ltac:(now cbv)) as Hrise.
  pose proof (fun p => detectJump_land (jumping p) 60 t5 eq_refl eq_refl)
    as Hland.
  change (abs16 150) with 150 in Hrise.
  subst jumping.
  cbn [peak_acceleration last_jump_time] in Hrise, Hland.
  unfold scenario, reported_peaks.
  cbn [firstn run_loop trigger_times]. unfold update.
  rewrite !Hrest, Hfire.
  cbn [getPeakAcceleration resetPeakAcceleration peak_acceleration
       is_jumping last_jump_time].
  rewrite !Hrise, !Hland.
  change (calculateScaleIndex 120) with 0.
  repeat split.
Qed.

Lemma scenario_reports_trigger_peak_witness :
  reported_peaks
    (snd (run_loop initial (scenario 1000 1100 1200 1300 1400))) = [120].
Proof.
  apply (scenario_reports_trigger_peak initial 1000 1100 1200 1300 1400).
  - reflexivity.
  - reflexivity.
Defined.

(** C1 as stated fails: run from the initial state at 100 ms intervals, the
    scenario does not report the peak 150. *)
Lemma scenario_does_not_report_150 :
  reported_peaks
    (snd (run_loop initial (scenario 1000 1100 1200 1300 1400))) <> [150].
Proof. vm_compute. discriminate. Qed.

(** C4 (as the code has it): along every sequence of observations, and
    likewise between the passes of the control loop, a jumping detector is
    followed either by a jumping detector whose peak is not lower or by a
    landed one whose peak is 0; so the peaks recorded during a jump form a
    non-decreasing sequence and the observation that ends the jump leaves
    the peak at 0. *)
Theorem peak_rule_of_observations
  (acc : AccelerometerManager.t) (obs : list (Z * Z)) :
  peak_rule (states acc (observations obs))
  /\ peak_rule (states_between_passes acc obs)
  /\ (is_jumping acc = true ->
      StronglySorted Z.le
        (peak_acceleration acc :: peaks_while_jumping acc obs))
  /\ (is_jumping acc = true ->
      forall p, landing_peak acc obs = Some p -> p = 0).
Proof.
  split; [|split; [|split]].
  - apply peak_rule_observations.
  - apply peak_rule_between_passes.
  - intros Hj. now apply peaks_while_jumping_sorted.
  - intros Hj p. now apply landing_peak_zero.
Qed.

(** A jump that starts at 120, rises to 150, stays there at a reading of
    130 and ends at 60. *)
Lemma peak_rule_of_observations_witness :
  StronglySorted Z.le
    (peak_acceleration (fst (detectJump initial 120 1000))
       :: peaks_while_jumping (fst (detectJump initial 120 1000))
            [(150, 1100); (130, 1200); (60, 1300)])
  /\ landing_peak (fst (detectJump initial 120 1000))
       [(150, 1100); (130, 1200); (60, 1300)] = Some 0.
Proof.
  split.
  - apply (proj1 (proj2 (proj2
             (peak_rule_of_observations
                (fst (detectJump initial 120 1000))
                [(150, 1100); (130, 1200); (60, 1300)])))).
    reflexivity.
  - reflexivity.
Defined.

(** C4 as stated fails: the operations of the pass that triggers at a
    reading of 120 take the peak from 120 down to 0 while the detector is
    jumping. *)
Lemma peak_rule_broken_by_reset :
  states initial (update_ops initial 120 1000)
  = [initial;
     {| peak_acceleration := 120; is_jumping := true;
        last_jump_time := 1000 |};
     {| peak_acceleration := 0; is_jumping := true;
        last_jump_time := 1000 |}]
  /\ ~ peak_rule (states initial (update_ops initial 120 1000)).
Proof.
  split; [reflexivity|].
  change (states initial (update_ops initial 120 1000))
    with [initial;
          {| peak_acceleration := 120; is_jumping := true;
             last_jump_time := 1000 |};
          {| peak_acceleration := 0; is_jumping := true;
             last_jump_time := 1000 |}].
  cbn [peak_rule is_jumping peak_acceleration].
  intros (_ & Hdrop & _). specialize (Hdrop eq_refl). lia.
Qed.

(** C9: [resetPeakAcceleration] clears the peak and leaves the jumping flag
    and the trigger stamp as they were.  So the pass that triggers leaves the
    detector jumping with peak 0, and a later pass of the same jump with a
    reading above the threshold records that reading as the peak, whatever
    the triggering reading was: after a trigger at 150, a reading of 120
    leaves the peak at 120. *)
Theorem resetPeakAcceleration_only_clears_peak :
  (forall acc,
     resetPeakAcceleration acc
     = {| peak_acceleration := 0;
          is_jumping := is_jumping acc;
          last_jump_time := last_jump_time acc |})
  /\ (forall acc raw now,
        snd (detectJump acc raw now) = true ->
        fst (update acc raw now)
        = {| peak_acceleration := 0; is_jumping := true;
             last_jump_time := now |})
  /\ (forall acc raw now,
        is_jumping acc = true -> peak_acceleration acc = 0 ->
        JUMP_THRESHOLD < abs16 raw ->
        update acc raw now
        = ({| peak_acceleration := abs16 raw; is_jumping := true;
              last_jump_time := last_jump_time acc |}, []))
  /\ fst (run_loop initial [(150, 1000); (120, 1100)])
     = {| peak_acceleration := 120; is_jumping := true;
          last_jump_time := 1000 |}.
Proof.
  split; [|split; [|split]].
  - intros acc. reflexivity.
  - intros acc raw now Hev. now rewrite update_trigger.
  - intros acc raw now Hj Hpeak Hz.
    rewrite (update_jumping acc raw now Hj).
    rewrite detectJump_rise by (assumption || lia).
    cbn [fst]. rewrite Hpeak.
    unfold JUMP_THRESHOLD in Hz. rewrite Z.max_r by lia. reflexivity.
  - reflexivity.
Qed.

(** The pass at 1000 ms triggers at a reading of 150; the next reading of
    the same jump is 120. *)
Lemma resetPeakAcceleration_only_clears_peak_witness :
  fst (update initial 150 1000)
  = {| peak_acceleration := 0; is_jumping := true; last_jump_time := 1000 |}
  /\ update (fst (update initial 150 1000)) 120 1100
     = ({| peak_acceleration := 120; is_jumping := true;
           last_jump_time := 1000 |}, []).
Proof.
  split.
  - apply (proj1 (proj2 resetPeakAcceleration_only_clears_peak)
             initial 150 1000).
    reflexivity.
  - apply (proj1 (proj2 (proj2 resetPeakAcceleration_only_clears_peak))
             (fst (update initial 150 1000)) 120 1100); reflexivity.
Defined.

End SystemProofs.

(** ** The WAV streamer *)
Module AudioProofs.
Import Constants AudioManager MachineIntFacts.

(** *** The shape of a playback *)

Lemma loop_body_cases (w : world) (st : loop_state) :
  let k := chunk st in
  let st' := {| chunk := S k;
                remain_size := uint32 (remain_size st - supply_size w k) |} in
  (remain_size st <= 0
   /\ loop_body w st = (Exit PayloadDone st, exit_events w PayloadDone k))
  \/ (0 < remain_size st /\ supply_size w k = 0
      /\ loop_body w st = (Exit ReadError st, exit_events w ReadError k))
  \/ (0 < remain_size st /\ supply_size w k <> 0 /\ writeFrames w k = false
      /\ loop_body w st = (Exit WriteError st', exit_events w WriteError k))
  \/ (0 < remain_size st /\ supply_size w k <> 0 /\ writeFrames w k = true
      /\ loop_body w st = (Continue st', delivered w k)).
Proof.
  cbv zeta. unfold loop_body, exit_events, delivered.
  destruct (Z.ltb_spec 0 (remain_size st)) as [Hpos|Hzero]; [|left; auto].
  right.
  destruct (Z.eqb_spec (supply_size w (chunk st)) 0) as [Hs|Hs];
    [left; rewrite Hs; auto|].
  right.
  destruct (writeFrames w (chunk st)); [right|left]; auto.
Qed.

(** A finished run of the loop delivered the chunks [chunk st], ...,
    [chunk st + n - 1] one after the other and then left. *)
Lemma stream_loop_trace (fuel : nat) (w : world) :
  forall st why st' tr,
    stream_loop fuel w st = Some (why, st', tr) ->
    exists n : nat,
      tr = flat_map (delivered w) (seq (chunk st) n)
             ++ exit_events w why (chunk st + n).
Proof.
  induction fuel as [|fuel IH]; intros st why st' tr; cbn [stream_loop].
  - discriminate.
  - destruct (loop_body_cases w st)
      as [(_ & E)|[(_ & _ & E)|[(_ & _ & _ & E)|(_ & _ & _ & E)]]];
      rewrite E.
    1-3: intros [= <- <- <-]; exists 0%nat; now rewrite Nat.add_0_r.
    destruct (stream_loop fuel w _) as [[[why1 st1] tr1]|] eqn:Hrest;
      [|discriminate].
    intros [= <- <- <-].
    destruct (IH _ _ _ _ Hrest) as [n ->].
    exists (S n). cbn [seq flat_map chunk].
    rewrite <- app_assoc, Nat.add_succ_r. reflexivity.
Qed.





Lemma player_after_app (p : player) (a b : list event) :
  player_after p (a ++ b) = player_after (player_after p a) b.
Proof. apply fold_left_app. Qed.

(** *** An index outside the scale *)

(** C7 (as the code has it): with an index outside [[0, SCALE_SIZE - 1]]
    [playSound] first resets the player (stop, then start), then reports the
    invalid index and returns: no storage call is made (nothing parsed,
    opened, read or closed) and no frame is written. *)
Theorem playSound_invalid_index (fuel : nat) (w : world) (scale_index : Z) :
  scale_index < 0 \/ SCALE_SIZE <= scale_index ->
  exists tr : list event,
    playSound fuel w scale_index = Some tr
    /\ tr = [StopPlayer; StartPlayer; SerialPrint "Invalid scale index"]
    /\ filter is_storage_op tr = []
    /\ written_chunks tr = []
    /\ filter is_device_op tr = [StopPlayer; StartPlayer].
Proof.
  intros Hout. eexists. split; [|split; [reflexivity|now cbn]].
  unfold playSound.
  destruct (Z.ltb_spec scale_index 0) as [Hneg|Hnonneg]; [reflexivity|].
  destruct (Z.leb_spec SCALE_SIZE scale_index) as [Hbig|Hsmall];
    [reflexivity|lia].
Qed.

Lemma playSound_invalid_index_witness :
  exists tr : list event,
    playSound 0 truncated_asset 8 = Some tr
    /\ tr = [StopPlayer; StartPlayer; SerialPrint "Invalid scale index"]
    /\ filter is_storage_op tr = []
    /\ written_chunks tr = []
    /\ filter is_device_op tr = [StopPlayer; StartPlayer].
Proof.
  apply (playSound_invalid_index 0 truncated_asset 8).
  right. apply Z.leb_le. reflexivity.
Defined.

(** C7 as stated fails: called with index [SCALE_SIZE], [playSound] does not
    leave the audio device alone. *)
Lemma playSound_invalid_index_resets_player :
  ~ (exists tr : list event,
       playSound 0 truncated_asset SCALE_SIZE = Some tr
       /\ filter is_storage_op tr = []
       /\ filter is_device_op tr = []).
Proof.
  intros (tr & Hplay & _ & Hdevice).
  cbn in Hplay. injection Hplay as <-.
  discriminate Hdevice.
Qed.

(** *** Termination of the loop *)

Lemma loop_reaches_step (w : world) (st st1 : loop_state) (evs : list event) :
  loop_body w st = (Continue st1, evs) ->
  forall st', loop_reaches w st1 st' -> loop_reaches w st st'.
Proof.
  intros Hbody st' Hreach.
  induction Hreach as [|sa sb evs' _ IH Hstep].
  - eapply reaches_next; [apply reaches_start|exact Hbody].
  - eapply reaches_next; [exact IH|exact Hstep].
Qed.

(** Read forwards: a reached state is the start or is reached from the
    state that follows the start. *)
Lemma loop_reaches_inv (w : world) (st st' : loop_state) :
  loop_reaches w st st' ->
  st' = st
  \/ exists st1 evs,
       loop_body w st = (Continue st1, evs) /\ loop_reaches w st1 st'.
Proof.
  induction 1 as [|sa sb evs _ IH Hstep].
  - now left.
  - right. destruct IH as [->|(st1 & evs1 & Hbody & Hreach)].
    + exists sb, evs. split; [exact Hstep|apply reaches_start].
    + exists st1, evs1. split; [exact Hbody|].
      eapply reaches_next; [exact Hreach|exact Hstep].
Qed.

Lemma reads_within_remaining_step
  (w : world) (st st1 : loop_state) (evs : list event) :
  reads_within_remaining w st ->
  loop_body w st = (Continue st1, evs) ->
  reads_within_remaining w st1.
Proof.
  intros Hreads Hbody st' Hreach. apply Hreads.
  eapply loop_reaches_step; eassumption.
Qed.

(** With reads that stay within the remaining count, the counter bounds the
    number of passes. *)
Lemma stream_loop_total (w : world) (n : nat) :
  forall st : loop_state,
    0 <= remain_size st <= Z.of_nat n ->
    remain_size st < 4294967296 ->
    reads_within_remaining w st ->
    exists why st' tr, stream_loop (S n) w st = Some (why, st', tr).
Proof.
  induction n as [|n IH]; intros st Hn H32 Hreads; cbn [stream_loop];
    destruct (loop_body_cases w st)
      as [(_ & E)|[(_ & _ & E)|[(_ & _ & _ & E)|(Hpos & Hs & _ & E)]]];
    rewrite E; eauto; [lia|].
  pose proof (Hreads st (reaches_start w st) Hpos) as Hle.
  pose proof (uint32_range (file_read w (chunk st))) as Hsup.
  fold (supply_size w (chunk st)) in Hsup.
  pose proof (reads_within_remaining_step w st _ _ Hreads E) as Hreads'.
  destruct (IH {| chunk := S (chunk st);
                  remain_size :=
                    uint32 (remain_size st - supply_size w (chunk st)) |})
    as (why & st' & tr & Hrun);
    cbn [remain_size]; try assumption.
  - rewrite uint32_sub_small; lia.
  - rewrite uint32_sub_small; lia.
  - cbn [stream_loop] in Hrun. rewrite Hrun. eauto.
Qed.







(** The 1500-byte payload in a file that ends with it: reads of 1024 and 476
    bytes, then the counter is 0. *)
Lemma exact_asset_reads_within_remaining :
  reads_within_remaining exact_asset {| chunk := 0; remain_size := 1500 |}.
Proof.
  intros st' Hreach _.
  apply loop_reaches_inv in Hreach as [->|(st1 & evs & Hbody & Hreach)];
    [now cbv|].
  injection Hbody as <- _.
  apply loop_reaches_inv in Hreach as [->|(st2 & evs2 & Hbody & Hreach)];
    [now cbv|].
  injection Hbody as <- _.
  apply loop_reaches_inv in Hreach as [->|(st3 & evs3 & Hbody & Hreach)];
    [now cbv|].
  discriminate Hbody.
Qed.


End AudioProofs.

(** * Further properties of the code *)

(** ** The detector, one observation at a time and over a run *)
Module DetectorFacts.
Import Constants AccelerometerManager MachineIntFacts DetectorProofs.

(** An idle detector whose first guard fails is left as it is. *)
Lemma detectJump_quiet (s : t) (raw now : Z) :
  is_jumping s = false ->
  abs16 raw <= JUMP_THRESHOLD
  \/ sub32 now (last_jump_time s) <= JUMP_COOLDOWN ->
  detectJump s raw now = (s, false).
Proof.
  intros Hidle Hquiet. unfold detectJump. rewrite Hidle.
  assert (Hguard : (JUMP_THRESHOLD <? abs16 raw) && negb false
                   && (JUMP_COOLDOWN <? sub32 now (last_jump_time s))
                   = false).
  { destruct Hquiet as [Hz|Hcool].
    - apply Z.ltb_ge in Hz. now rewrite Hz.
    - apply Z.ltb_ge in Hcool. rewrite Hcool. apply andb_false_r. }
  rewrite Hguard, andb_false_r, Hidle. reflexivity.
Qed.

(** X1: a detector that is not jumping ignores a reading that is not above
    the threshold, and any reading that comes before the cooldown is over:
    it returns [false] and none of its members changes. *)
Theorem idle_detector_ignores (s : t) (raw now : Z) :
  is_jumping s = false ->
  abs16 raw <= JUMP_THRESHOLD
  \/ sub32 now (last_jump_time s) <= JUMP_COOLDOWN ->
  detectJump s raw now = (s, false).
Proof.
  intros Hidle [Hz|Hcool].
  - apply detectJump_quiet; [assumption|now left].
  - apply detectJump_quiet; [assumption|now right].
Qed.

(** A reading of 300 at 1200 ms, 200 ms after a trigger that has since
    landed. *)
Lemma idle_detector_ignores_witness :
  detectJump
    {| peak_acceleration := 0; is_jumping := false; last_jump_time := 1000 |}
    300 1200
  = ({| peak_acceleration := 0; is_jumping := false;
        last_jump_time := 1000 |}, false).
Proof.
  apply idle_detector_ignores.
  - reflexivity.
  - right. apply Z.leb_le. reflexivity.
Defined.

(** X2: a jump ends exactly on a reading strictly below the threshold; a
    reading equal to the threshold neither starts nor ends a jump and leaves
    the trigger stamp alone. *)
Theorem jump_ends_below_threshold (s : t) (raw now : Z) :
  (is_jumping s = true ->
   (is_jumping (fst (detectJump s raw now)) = false
    <-> abs16 raw < JUMP_THRESHOLD))
  /\ (abs16 raw = JUMP_THRESHOLD ->
      snd (detectJump s raw now) = false
      /\ is_jumping (fst (detectJump s raw now)) = is_jumping s
      /\ last_jump_time (fst (detectJump s raw now)) = last_jump_time s).
Proof.
  split.
  - intros Hj.
    destruct (Z_lt_le_dec (abs16 raw) JUMP_THRESHOLD) as [Hlow|Hhigh].
    + rewrite detectJump_land by assumption. cbn. tauto.
    + rewrite detectJump_rise by assumption. cbn. split; [discriminate|lia].
  - intros Hz. destruct (is_jumping s) eqn:Hj.
    + rewrite detectJump_rise by (assumption || lia). cbn. auto.
    + rewrite detectJump_rest by (assumption || lia). cbn. auto.
Qed.

Lemma jump_ends_below_threshold_witness :
  is_jumping
    (fst (detectJump
            {| peak_acceleration := 120; is_jumping := true;
               last_jump_time := 1000 |} 80 1100)) = true
  /\ is_jumping
       (fst (detectJump
               {| peak_acceleration := 120; is_jumping := true;
                  last_jump_time := 1000 |} (-79) 1100)) = false.
Proof.
  split.
  - apply (proj2 (jump_ends_below_threshold
                    {| peak_acceleration := 120; is_jumping := true;
                       last_jump_time := 1000 |} 80 1100)).
    reflexivity.
  - apply (proj1 (jump_ends_below_threshold
                    {| peak_acceleration := 120; is_jumping := true;
                       last_jump_time := 1000 |} (-79) 1100) eq_refl).
    reflexivity.
Defined.

(** X3: the sign of a reading is dropped: [raw] and [- raw] are treated
    alike, and what is compared and stored is the absolute value, between 0
    and 32767, for every [int16_t] reading but [INT16_MIN].  [INT16_MIN] is
    stored as itself: it never triggers and it ends a jump. *)
Theorem reading_sign_is_dropped (s : t) (raw now : Z) :
  detectJump s (- raw) now = detectJump s raw now
  /\ (-32768 < raw <= 32767 ->
      abs16 raw = Z.abs raw /\ 0 <= abs16 raw <= 32767)
  /\ snd (detectJump s (-32768) now) = false
  /\ is_jumping (fst (detectJump s (-32768) now)) = false.
Proof.
  split; [|split; [|split]].
  - unfold detectJump, abs16. now rewrite Z.abs_opp.
  - intros Hraw. rewrite abs16_exact by assumption. lia.
  - destruct (is_jumping s) eqn:Hj.
    + now rewrite detectJump_land.
    + now rewrite detectJump_rest.
  - destruct (is_jumping s) eqn:Hj.
    + now rewrite detectJump_land.
    + now rewrite detectJump_rest.
Qed.

Lemma reading_sign_is_dropped_witness :
  abs16 (-32767) = 32767 /\ 0 <= abs16 (-32767) <= 32767.
Proof.
  apply (proj1 (proj2 (reading_sign_is_dropped initial (-32767) 0))).
  split; [reflexivity|discriminate].
Defined.

(** X4: the cooldown is measured on the time that has really passed, also
    when [millis()] has wrapped around in between: if [d] milliseconds (less
    than 2^32) lie between the last trigger and the observation, the
    unsigned difference is [d], and the detector triggers exactly when the
    reading is above the threshold, it is not jumping and [d] is more than
    the cooldown. *)
Theorem cooldown_counts_elapsed_time (s : t) (raw d : Z) :
  0 <= last_jump_time s < 4294967296 ->
  0 <= d < 4294967296 ->
  sub32 (uint32 (last_jump_time s + d)) (last_jump_time s) = d
  /\ (snd (detectJump s raw (uint32 (last_jump_time s + d))) = true
      <-> JUMP_THRESHOLD < abs16 raw
          /\ is_jumping s = false
          /\ JUMP_COOLDOWN < d).
Proof.
  intros Hlast Hd.
  assert (Hsub : sub32 (uint32 (last_jump_time s + d)) (last_jump_time s) = d).
  { unfold sub32, uint32. rewrite Zminus_mod_idemp_l.
    replace (last_jump_time s + d - last_jump_time s) with d by lia.
    now apply Z.mod_small. }
  split; [exact Hsub|]. split.
  - intros Hev. destruct (detectJump_true _ _ _ Hev) as (_ & Hz & Hidle & Hc).
    rewrite Hsub in Hc. auto.
  - intros (Hz & Hidle & Hc).
    rewrite detectJump_fire; try assumption; [reflexivity|].
    now rewrite Hsub.
Qed.

(** The last trigger was 100 ms before the clock wrapped; 550 ms later the
    clock reads 450. *)
Lemma cooldown_counts_elapsed_time_witness :
  snd (detectJump
         {| peak_acceleration := 0; is_jumping := false;
            last_jump_time := 4294967196 |} 120 450) = true.
Proof.
  apply (proj2 (cooldown_counts_elapsed_time
                  {| peak_acceleration := 0; is_jumping := false;
                     last_jump_time := 4294967196 |} 120 550
                  (conj (proj1 (Z.leb_le 0 4294967196) eq_refl)
                        (proj1 (Z.ltb_lt 4294967196 4294967296) eq_refl))
                  (conj (proj1 (Z.leb_le 0 550) eq_refl)
                        (proj1 (Z.ltb_lt 550 4294967296) eq_refl)))).
  split; [reflexivity|split; reflexivity].
Defined.

Lemma observe_all_cons (s : t) (raw now : Z) (rest : list (Z * Z)) :
  observe_all s ((raw, now) :: rest)
  = observe_all (fst (detectJump s raw now)) rest.
Proof. reflexivity. Qed.

(** While the readings stay at or above the threshold a jumping detector
    stays in the jump and does not trigger. *)
Lemma jumping_sustained_no_trigger (obs : list (Z * Z)) :
  forall s : t,
    is_jumping s = true ->
    Forall (fun o => JUMP_THRESHOLD <= abs16 (fst o)) obs ->
    trigger_times s obs = [].
Proof.
  induction obs as [|[raw now] rest IH]; intros s Hj Hhigh; [reflexivity|].
  apply Forall_cons_iff in Hhigh as [Hz Hhigh]. cbn [fst] in Hz.
  rewrite trigger_times_cons, detectJump_rise by assumption.
  cbn [fst snd]. now apply IH.
Qed.

(** X5: a signal that stays at or above the threshold triggers at most
    once, however long it lasts and whatever the clock does: a second
    trigger needs a reading below the threshold in between. *)
Theorem sustained_signal_triggers_once (obs : list (Z * Z)) (s : t) :
  Forall (fun o => JUMP_THRESHOLD <= abs16 (fst o)) obs ->
  (List.length (trigger_times s obs) <= 1)%nat.
Proof.
  revert s. induction obs as [|[raw now] rest IH]; intros s Hhigh;
    [cbn; lia|].
  pose proof Hhigh as Hall.
  apply Forall_cons_iff in Hhigh as [Hz Hhigh]. cbn [fst] in Hz.
  destruct (is_jumping s) eqn:Hj.
  - rewrite jumping_sustained_no_trigger by assumption. cbn; lia.
  - rewrite trigger_times_cons.
    destruct (snd (detectJump s raw now)) eqn:Hev.
    + destruct (detectJump_true _ _ _ Hev) as (-> & _).
      rewrite jumping_sustained_no_trigger by (reflexivity || assumption).
      cbn; lia.
    + now apply IH.
Qed.

(** Two seconds of readings between 90 and 300, sampled every 100 ms. *)
Lemma sustained_signal_triggers_once_witness :
  (List.length
     (trigger_times initial
        [(300, 1000); (-250, 1100); (90, 1200); (200, 1700); (300, 2300);
         (-300, 3000)]%Z) <= 1)%nat.
Proof.
  apply sustained_signal_triggers_once.
  repeat (constructor; try (apply Z.leb_le; reflexivity)).
Defined.

(** X6: during the first [JUMP_COOLDOWN] milliseconds after start-up the
    detector is deaf: whatever the readings, it does not trigger and stays
    in its initial state. *)
Theorem no_trigger_in_first_cooldown (obs : list (Z * Z)) :
  Forall (fun o => 0 <= snd o <= JUMP_COOLDOWN) obs ->
  trigger_times initial obs = [] /\ observe_all initial obs = initial.
Proof.
  induction obs as [|[raw now] rest IH]; intros Hearly; [now split|].
  apply Forall_cons_iff in Hearly as [Hnow Hearly]. cbn [snd] in Hnow.
  rewrite trigger_times_cons, observe_all_cons.
  rewrite detectJump_quiet; cbn [fst snd]; auto.
  right. cbn [initial last_jump_time].
  unfold JUMP_COOLDOWN in *. rewrite sub32_exact; lia.
Qed.

Lemma no_trigger_in_first_cooldown_witness :
  trigger_times initial [(300, 0); (-400, 250); (32767, 500)] = []
  /\ observe_all initial [(300, 0); (-400, 250); (32767, 500)] = initial.
Proof.
  apply no_trigger_in_first_cooldown.
  repeat (constructor;
          try (split; apply Z.leb_le; reflexivity)).
Defined.

Lemma last_cons_default {A : Type} (a d : A) (l : list A) :
  List.last (a :: l) d = List.last l a.
Proof.
  revert a d. induction l as [|b l IH]; intros a d; [reflexivity|].
  change (List.last (a :: b :: l) d) with (List.last (b :: l) d).
  now rewrite !IH.
Qed.

(** X7: [last_jump_time] always holds the clock value of the most recent
    trigger: after any run of observations it is the last of the trigger
    times of that run, or what it was before if the run had no trigger. *)
Theorem last_jump_time_is_last_trigger (obs : list (Z * Z)) (s : t) :
  last_jump_time (observe_all s obs)
  = List.last (trigger_times s obs) (last_jump_time s).
Proof.
  revert s. induction obs as [|[raw now] rest IH]; intros s; [reflexivity|].
  rewrite observe_all_cons, trigger_times_cons, IH.
  destruct (snd (detectJump s raw now)) eqn:Hev.
  - destruct (detectJump_true _ _ _ Hev) as (-> & _).
    cbn [last_jump_time]. now rewrite last_cons_default.
  - now rewrite detectJump_false.
Qed.

(** Two bit fields that do not overlap are joined by adding them. *)
Lemma lor_shift_byte (lo hi : Z) :
  0 <= lo < 256 -> Z.lor lo (Z.shiftl hi 8) = lo + 256 * hi.
Proof.
  intros Hlo.
  assert (Hdisjoint : Z.land lo (Z.shiftl hi 8) = 0).
  { apply Z.bits_inj'. intros n Hn.
    rewrite Z.land_spec, Z.bits_0.
    destruct (Z_lt_le_dec n 8) as [Hlow|Hhigh].
    - rewrite (Z.shiftl_spec_low hi 8 n) by assumption. apply andb_false_r.
    - rewrite <- (Z.mod_small lo (2 ^ 8)) by (change (2 ^ 8) with 256; lia).
      rewrite Z.mod_pow2_bits_high by lia. reflexivity. }
  rewrite <- Z.lxor_lor by assumption.
  rewrite <- Z.add_nocarry_lxor by assumption.
  rewrite Z.shiftl_mul_pow2 by lia. change (2 ^ 8) with 256. lia.
Qed.

Lemma int16_shift (v k : Z) :
  -32768 <= v <= 32767 -> int16 (v + k * 65536) = v.
Proof.
  intros Hv. unfold int16.
  replace (v + k * 65536 + 32768) with (v + 32768 + k * 65536) by lia.
  rewrite Z_mod_plus_full, Z.mod_small; lia.
Qed.

(** X8: [readAxis] puts two bytes together as a little-endian two's
    complement number: the result is [lo + 256 * hi], less 65536 when the
    top bit of [hi] is set; it is an [int16_t], and its two bytes are [lo]
    and [hi] again. *)
Theorem readAxis_little_endian (lo hi : Z) :
  0 <= lo <= 255 -> 0 <= hi <= 255 ->
  readAxis lo hi
  = (if hi <? 128 then lo + 256 * hi else lo + 256 * hi - 65536)
  /\ -32768 <= readAxis lo hi <= 32767
  /\ readAxis lo hi mod 256 = lo
  /\ (readAxis lo hi / 256) mod 256 = hi.
Proof.
  intros Hlo Hhi.
  assert (Hval : readAxis lo hi
                 = if hi <? 128 then lo + 256 * hi
                   else lo + 256 * hi - 65536).
  { unfold readAxis. rewrite lor_shift_byte by lia.
    destruct (Z.ltb_spec hi 128).
    - apply int16_id. lia.
    - transitivity (int16 (lo + 256 * hi - 65536 + 1 * 65536));
        [f_equal; lia|apply int16_shift; lia]. }
  split; [exact Hval|]. rewrite Hval.
  destruct (Z.ltb_spec hi 128); (split; [lia|split]).
  - replace (lo + 256 * hi) with (lo + hi * 256) by lia.
    rewrite Z_mod_plus_full. apply Z.mod_small. lia.
  - replace (lo + 256 * hi) with (lo + hi * 256) by lia.
    rewrite Z.div_add, (Z.div_small lo 256) by lia.
    apply Z.mod_small. lia.
  - replace (lo + 256 * hi - 65536) with (lo + (hi - 256) * 256) by lia.
    rewrite Z_mod_plus_full. apply Z.mod_small. lia.
  - replace (lo + 256 * hi - 65536) with (lo + (hi - 256) * 256) by lia.
    rewrite Z.div_add, (Z.div_small lo 256) by lia.
    replace (0 + (hi - 256)) with (hi + -1 * 256) by lia.
    rewrite Z_mod_plus_full. apply Z.mod_small. lia.
Qed.

(** The bytes 0x88 and 0xFF are the reading -120. *)
Lemma readAxis_little_endian_witness :
  readAxis 136 255 = -120.
Proof.
  apply (proj1 (readAxis_little_endian 136 255
                  (conj (proj1 (Z.leb_le 0 136) eq_refl)
                        (proj1 (Z.leb_le 136 255) eq_refl))
                  (conj (proj1 (Z.leb_le 0 255) eq_refl)
                        (proj1 (Z.leb_le 255 255) eq_refl)))).
Defined.

(** X9: every [int16_t] value is read back from its two bytes. *)
Theorem readAxis_reads_back (v : Z) :
  -32768 <= v <= 32767 ->
  readAxis (v mod 256) ((v / 256) mod 256) = v.
Proof.
  intros Hv. unfold readAxis.
  pose proof (Z.mod_pos_bound v 256 eq_refl) as Hlo.
  rewrite lor_shift_byte by assumption.
  pose proof (Z.div_mod v 256 ltac:(lia)) as Hdm.
  pose proof (Z.div_mod (v / 256) 256 ltac:(lia)) as Hdm2.
  replace (v mod 256 + 256 * ((v / 256) mod 256))
    with (v + - (v / 256 / 256) * 65536) by lia.
  now apply int16_shift.
Qed.

Lemma readAxis_reads_back_witness :
  readAxis ((-32768) mod 256) (((-32768) / 256) mod 256) = -32768.
Proof.
  apply readAxis_reads_back.
  split; apply Z.leb_le; reflexivity.
Defined.

End DetectorFacts.

(** ** The scale mapping, note by note *)
Module ScaleFacts.
Import Constants JumpSoundSystem ScaleProofs.

#[local] Ltac scale_arith :=
  unfold Arduino.constrain, MIN_ACCELERATION, MAX_ACCELERATION, SCALE_SIZE
    in *;
  repeat match goal with
    | |- context [?a <? ?b] => destruct (Z.ltb_spec a b)
    | H : context [?a <? ?b] |- _ => destruct (Z.ltb_spec a b)
    end;
  Z.div_mod_to_equations; lia.

(** X10: a larger acceleration never maps to a lower note. *)
Theorem calculateScaleIndex_monotone (a b : Z) :
  a <= b -> calculateScaleIndex a <= calculateScaleIndex b.
Proof.
  intros Hab. rewrite !calculateScaleIndex_quotient.
  apply Z.div_le_mono; [reflexivity|].
  apply Z.mul_le_mono_nonneg_r; [now cbv|].
  scale_arith.
Qed.

Lemma calculateScaleIndex_monotone_witness :
  calculateScaleIndex (-5) <= calculateScaleIndex 239.
Proof.
  apply calculateScaleIndex_monotone. apply Z.leb_le. reflexivity.
Defined.

(** X11: the accelerations that play note [i] are those whose clamped value
    [c] satisfies [320 * i <= 7 * (c - 80) < 320 * (i + 1)].  So the lowest
    note is played up to 125 and the highest only from 400 on. *)
Theorem calculateScaleIndex_bucket (a i : Z) :
  (calculateScaleIndex a = i
   <-> (MAX_ACCELERATION - MIN_ACCELERATION) * i
       <= (SCALE_SIZE - 1)
          * (Arduino.constrain a MIN_ACCELERATION MAX_ACCELERATION
             - MIN_ACCELERATION)
       < (MAX_ACCELERATION - MIN_ACCELERATION) * (i + 1))
  /\ (calculateScaleIndex a = 0 <-> a <= 125)
  /\ (calculateScaleIndex a = SCALE_SIZE - 1 <-> MAX_ACCELERATION <= a).
Proof.
  rewrite !calculateScaleIndex_quotient.
  split; [|split]; split; intros H; scale_arith.
Qed.

(** X12: every note of the scale can be played: note [i] is first reached
    at the acceleration [80 + ceil (320 * i / 7)], that is at 80, 126, 172,
    218, 263, 309, 355 and 400. *)
Theorem every_note_is_reached (i : Z) :
  0 <= i <= SCALE_SIZE - 1 ->
  calculateScaleIndex (80 + (320 * i + 6) / 7) = i
  /\ forall a, calculateScaleIndex a = i ->
               1 <= i -> 80 + (320 * i + 6) / 7 <= a.
Proof.
  intros Hi. split.
  - rewrite calculateScaleIndex_quotient. scale_arith.
  - intros a Ha Hpos. rewrite calculateScaleIndex_quotient in Ha.
    scale_arith.
Qed.

Lemma every_note_is_reached_witness :
  calculateScaleIndex 263 = 4
  /\ forall a, calculateScaleIndex a = 4 -> 1 <= 4 -> 263 <= a.
Proof.
  apply (every_note_is_reached 4).
  split; apply Z.leb_le; reflexivity.
Defined.

Lemma calculateScaleIndex_bounds (a : Z) :
  0 <= calculateScaleIndex a < SCALE_SIZE.
Proof. rewrite calculateScaleIndex_quotient. scale_arith. Qed.

End ScaleFacts.

(** ** The control loop over a run *)
Module LoopFacts.
Import Constants AccelerometerManager JumpSoundSystem.
Import MachineIntFacts DetectorProofs SystemProofs DetectorFacts ScaleFacts.

(** Whether [detectJump] triggers, and the flag and the stamp it leaves, do
    not depend on the recorded peak. *)
Lemma detectJump_peak_blind (s1 s2 : AccelerometerManager.t) (raw now : Z) :
  is_jumping s1 = is_jumping s2 ->
  last_jump_time s1 = last_jump_time s2 ->
  snd (detectJump s1 raw now) = snd (detectJump s2 raw now)
  /\ is_jumping (fst (detectJump s1 raw now))
     = is_jumping (fst (detectJump s2 raw now))
  /\ last_jump_time (fst (detectJump s1 raw now))
     = last_jump_time (fst (detectJump s2 raw now)).
Proof.
  destruct s1 as [p1 j1 l1], s2 as [p2 j2 l2].
  cbn [is_jumping last_jump_time]. intros <- <-.
  destruct j1.
  - destruct (Z_lt_le_dec (abs16 raw) JUMP_THRESHOLD).
    + rewrite !detectJump_land by (reflexivity || assumption). now cbn.
    + rewrite !detectJump_rise by (reflexivity || assumption). now cbn.
  - destruct (Z_lt_le_dec JUMP_THRESHOLD (abs16 raw)) as [Hz|Hz];
      [destruct (Z_lt_le_dec JUMP_COOLDOWN (sub32 now l1)) as [Hc|Hc]|].
    + rewrite !detectJump_fire by (reflexivity || assumption). now cbn.
    + rewrite !detectJump_quiet by (reflexivity || now right). now cbn.
    + rewrite !detectJump_quiet by (reflexivity || now left). now cbn.
Qed.

Lemma reported_peaks_cons (acts : list action) (log : list (list action)) :
  reported_peaks (acts :: log)
  = reported_peaks [acts] ++ reported_peaks log.
Proof.
  unfold reported_peaks. cbn [List.concat].
  now rewrite app_nil_r, flat_map_app.
Qed.

Lemma played_indices_cons (acts : list action) (log : list (list action)) :
  played_indices (acts :: log)
  = played_indices [acts] ++ played_indices log.
Proof.
  unfold played_indices. cbn [List.concat].
  now rewrite app_nil_r, flat_map_app.
Qed.

Lemma run_loop_cons
  (acc : AccelerometerManager.t) (raw now : Z) (rest : list (Z * Z)) :
  run_loop acc ((raw, now) :: rest)
  = (fst (run_loop (fst (update acc raw now)) rest),
     snd (update acc raw now)
       :: snd (run_loop (fst (update acc raw now)) rest)).
Proof.
  cbn [run_loop]. destruct (update acc raw now) as [acc1 acts].
  cbn [fst snd]. now destruct (run_loop acc1 rest).
Qed.

Lemma run_loop_follows_detector (obs : list (Z * Z)) :
  forall acc s : AccelerometerManager.t,
    is_jumping acc = is_jumping s ->
    last_jump_time acc = last_jump_time s ->
    reported_peaks (snd (run_loop acc obs)) = trigger_readings s obs
    /\ played_indices (snd (run_loop acc obs))
       = List.map calculateScaleIndex (trigger_readings s obs)
    /\ is_jumping (fst (run_loop acc obs)) = is_jumping (observe_all s obs)
    /\ last_jump_time (fst (run_loop acc obs))
       = last_jump_time (observe_all s obs).
Proof.
  induction obs as [|[raw now] rest IH]; intros acc s Hflag Hstamp.
  - cbn. auto.
  - destruct (detectJump_peak_blind acc s raw now Hflag Hstamp)
      as (Hev & Hflag' & Hstamp').
    rewrite run_loop_cons, observe_all_cons. cbn [fst snd trigger_readings].
    rewrite reported_peaks_cons, played_indices_cons.
    destruct (detectJump s raw now) as [s' jumped] eqn:Es.
    cbn [fst snd] in *.
    destruct jumped.
    + rewrite (update_trigger acc raw now Hev). cbn [fst snd].
      destruct (detectJump_true acc raw now Hev) as (Hacc & _).
      rewrite Hacc in Hflag', Hstamp'. cbn [is_jumping last_jump_time] in *.
      destruct (IH {| peak_acceleration := 0; is_jumping := true;
                      last_jump_time := now |} s')
        as (Hp & Hi & Hf & Hl); [assumption|assumption|].
      rewrite Hp, Hi. cbn. auto.
    + assert (Hupd : update acc raw now = (fst (detectJump acc raw now), [])).
      { unfold update. destruct (detectJump acc raw now) as [a1 j1].
        cbn [snd] in Hev. now subst j1. }
      rewrite Hupd. cbn [fst snd].
      destruct (IH (fst (detectJump acc raw now)) s')
        as (Hp & Hi & Hf & Hl); [assumption|assumption|].
      rewrite Hp, Hi. cbn. auto.
Qed.

(** X13: the control loop plays and reports once for every trigger of the
    bare detector, at the same observations: clearing the peak after a
    trigger never changes when the detector triggers.  The peak it reports
    is the stored reading of the triggering observation, the note it plays
    is [calculateScaleIndex] of that reading, and the jumping flag and the
    trigger stamp it leaves are those of the bare detector. *)
Theorem run_loop_reports_each_trigger
  (acc : AccelerometerManager.t) (obs : list (Z * Z)) :
  reported_peaks (snd (run_loop acc obs)) = trigger_readings acc obs
  /\ played_indices (snd (run_loop acc obs))
     = List.map calculateScaleIndex (trigger_readings acc obs)
  /\ List.length (trigger_readings acc obs)
     = List.length (trigger_times acc obs)
  /\ is_jumping (fst (run_loop acc obs)) = is_jumping (observe_all acc obs)
  /\ last_jump_time (fst (run_loop acc obs))
     = last_jump_time (observe_all acc obs).
Proof.
  destruct (run_loop_follows_detector obs acc acc eq_refl eq_refl)
    as (Hp & Hi & Hf & Hl).
  repeat (split; [assumption|]). split; [|split; assumption].
  clear. revert acc.
  induction obs as [|[raw now] rest IH]; intros acc; [reflexivity|].
  cbn [trigger_readings trigger_times].
  destruct (detectJump acc raw now) as [s' jumped].
  destruct jumped; cbn [List.length]; now rewrite IH.
Qed.

Lemma trigger_readings_above (obs : list (Z * Z)) :
  forall s : AccelerometerManager.t,
    Forall (fun p => JUMP_THRESHOLD < p <= 32767) (trigger_readings s obs).
Proof.
  induction obs as [|[raw now] rest IH]; intros s; [constructor|].
  cbn [trigger_readings].
  destruct (detectJump s raw now) as [s' jumped] eqn:Es.
  destruct jumped; [|apply IH].
  constructor; [|apply IH].
  assert (Hev : snd (detectJump s raw now) = true) by now rewrite Es.
  destruct (detectJump_true _ _ _ Hev) as (_ & Hz & _).
  pose proof (int16_range (Z.abs raw)) as Hr. fold (abs16 raw) in Hr. lia.
Qed.

(** X14: every peak the control loop reports is a reading that was strictly
    above the threshold, and at most 32767. *)
Theorem reported_peak_exceeds_threshold
  (acc : AccelerometerManager.t) (obs : list (Z * Z)) (p : Z) :
  In p (reported_peaks (snd (run_loop acc obs))) ->
  JUMP_THRESHOLD < p <= 32767.
Proof.
  destruct (run_loop_follows_detector obs acc acc eq_refl eq_refl)
    as (-> & _).
  intros Hin.
  pose proof (trigger_readings_above obs acc) as Hall.
  rewrite Forall_forall in Hall. now apply Hall.
Qed.

Lemma reported_peak_exceeds_threshold_witness :
  JUMP_THRESHOLD < 120 <= 32767.
Proof.
  apply (reported_peak_exceeds_threshold initial
           (scenario 1000 1100 1200 1300 1400) 120).
  left. reflexivity.
Defined.

(** What every operation on the detector preserves. *)
Lemma apply_op_keeps_peak_sane (s : AccelerometerManager.t) (o : op) :
  (is_jumping s = false -> peak_acceleration s = 0) ->
  peak_acceleration s = 0
  \/ JUMP_THRESHOLD <= peak_acceleration s <= 32767 ->
  (is_jumping (apply_op s o) = false -> peak_acceleration (apply_op s o) = 0)
  /\ (peak_acceleration (apply_op s o) = 0
      \/ JUMP_THRESHOLD <= peak_acceleration (apply_op s o) <= 32767).
Proof.
  intros Hidle Hrange. destruct o as [raw now|]; cbn [apply_op].
  - pose proof (int16_range (Z.abs raw)) as Hr. fold (abs16 raw) in Hr.
    destruct (is_jumping s) eqn:Hj.
    + destruct (Z_lt_le_dec (abs16 raw) JUMP_THRESHOLD).
      * rewrite detectJump_land by assumption. cbn. auto.
      * rewrite detectJump_rise by assumption. cbn.
        split; [discriminate|]. right. lia.
    + destruct (snd (detectJump s raw now)) eqn:Hev.
      * destruct (detectJump_true _ _ _ Hev) as (-> & Hz & _). cbn.
        split; [discriminate|]. right. lia.
      * assert (Hsame : fst (detectJump s raw now) = s).
        { destruct (Z_lt_le_dec JUMP_THRESHOLD (abs16 raw)) as [Hz|Hz];
            [destruct (Z_lt_le_dec JUMP_COOLDOWN
                         (sub32 now (last_jump_time s))) as [Hc|Hc]|].
          - rewrite detectJump_fire in Hev by assumption. discriminate Hev.
          - now rewrite detectJump_quiet by (assumption || now right).
          - now rewrite detectJump_quiet by (assumption || now left). }
        rewrite Hsame. auto.
  - cbn. auto.
Qed.

(** X15: whatever observations and resets the detector goes through from its
    initial state, a detector that is not jumping has peak 0, and the peak
    is always either 0 or between the threshold and 32767. *)
Theorem peak_is_sane (ops : list op) :
  (is_jumping (run_ops initial ops) = false ->
   peak_acceleration (run_ops initial ops) = 0)
  /\ (peak_acceleration (run_ops initial ops) = 0
      \/ JUMP_THRESHOLD <= peak_acceleration (run_ops initial ops) <= 32767).
Proof.
  unfold run_ops.
  assert (Hgen : forall s,
             (is_jumping s = false -> peak_acceleration s = 0) ->
             peak_acceleration s = 0
             \/ JUMP_THRESHOLD <= peak_acceleration s <= 32767 ->
             (is_jumping (fold_left apply_op ops s) = false ->
              peak_acceleration (fold_left apply_op ops s) = 0)
             /\ (peak_acceleration (fold_left apply_op ops s) = 0
                 \/ JUMP_THRESHOLD
                    <= peak_acceleration (fold_left apply_op ops s)
                    <= 32767)).
  { induction ops as [|o rest IH]; intros s Hidle Hrange; [now split|].
    cbn [fold_left].
    destruct (apply_op_keeps_peak_sane s o Hidle Hrange) as [Hidle' Hrange'].
    now apply IH. }
  apply Hgen; cbn; auto.
Qed.

End LoopFacts.

(** ** The streaming loop, byte by byte *)
Module StreamFacts.
Import Constants AudioManager MachineIntFacts AudioProofs.

Lemma bytes_offered_app (a b : list event) :
  bytes_offered (a ++ b) = bytes_offered a + bytes_offered b.
Proof.
  unfold bytes_offered, written_sizes. rewrite flat_map_app.
  induction (flat_map _ a) as [|n l IH]; cbn [app fold_right]; lia.
Qed.

Lemma bytes_accepted_app (a b : list event) :
  bytes_accepted (a ++ b) = bytes_accepted a + bytes_accepted b.
Proof.
  unfold bytes_accepted. rewrite flat_map_app.
  induction (flat_map _ a) as [|n l IH]; cbn [app fold_right]; lia.
Qed.

Lemma written_sizes_app (a b : list event) :
  written_sizes (a ++ b) = written_sizes a ++ written_sizes b.
Proof. apply flat_map_app. Qed.

(** One unfolding of the loop: it is left at once in three of the four
    cases of [loop_body], and goes round again in the fourth. *)
Lemma stream_loop_S (fuel : nat) (w : world) (st : loop_state) :
  stream_loop (S fuel) w st
  = match loop_body w st with
    | (Exit why st', evs) => Some (why, st', evs)
    | (Continue st', evs) =>
        match stream_loop fuel w st' with
        | Some (why, st'', tr) => Some (why, st'', evs ++ tr)
        | None => None
        end
    end.
Proof. reflexivity. Qed.

Lemma next_counter_range (w : world) (st : loop_state) :
  0 <= remain_size
         {| chunk := S (chunk st);
            remain_size :=
              uint32 (remain_size st - supply_size w (chunk st)) |}
    < 4294967296.
Proof. apply uint32_range. Qed.

(** X16: the counter is honest modulo 2^32: when the loop is left, the
    counter holds the payload size less all the bytes handed to
    [writeFrames], reduced modulo 2^32, whatever the reads returned. *)
Theorem counter_accounts_for_bytes (fuel : nat) (w : world) :
  forall (st : loop_state) why st' tr,
    0 <= remain_size st < 4294967296 ->
    stream_loop fuel w st = Some (why, st', tr) ->
    remain_size st' = uint32 (remain_size st - bytes_offered tr).
Proof.
  induction fuel as [|fuel IH]; intros st why st' tr Hr; [discriminate|].
  rewrite stream_loop_S.
  destruct (loop_body_cases w st)
    as [(_ & E)|[(_ & _ & E)|[(_ & _ & _ & E)|(_ & _ & _ & E)]]];
    rewrite E.
  - intros [= <- <- <-]. cbn. rewrite Z.sub_0_r. symmetry.
    now apply uint32_id.
  - intros [= <- <- <-]. cbn. rewrite Z.sub_0_r. symmetry.
    now apply uint32_id.
  - intros [= <- <- <-]. cbn. now rewrite Z.add_0_r.
  - destruct (stream_loop fuel w _) as [[[why1 st1] tr1]|] eqn:Hrest;
      [|discriminate].
    intros [= <- <- <-].
    rewrite (IH _ _ _ _ (next_counter_range w st) Hrest). cbn [remain_size].
    change (bytes_offered (FileRead ?a ?b :: WriteFrames ?c ?d ?e :: ?l))
      with (d + bytes_offered l).
    unfold uint32. rewrite Zminus_mod_idemp_l. f_equal. lia.
Qed.

(** The trailing asset: 2048 bytes are written for a payload of 1500 and the
    counter ends at 1500 - 2048 modulo 2^32. *)
Lemma counter_accounts_for_bytes_witness :
  4294966748 = uint32 (1500 - 2048).
Proof.
  apply (counter_accounts_for_bytes 3 trailing_asset
           {| chunk := 0; remain_size := 1500 |} ReadError
           {| chunk := 2; remain_size := 4294966748 |}
           [FileRead 0 1024; WriteFrames 0 1024 true;
            FileRead 1 1024; WriteFrames 1 1024 true;
            FileRead 2 0; SerialPrint "Error reading file"]).
  - split; [apply Z.leb_le|apply Z.ltb_lt]; reflexivity.
  - reflexivity.
Defined.

(** X17: when every read returns at most the remaining count, the loop never
    hands more bytes to [writeFrames] than the payload has, the counter
    holds exactly what is left of it, and a loop that is left because the
    counter reached 0 has had the whole payload accepted by the player. *)
Theorem payload_is_not_exceeded (fuel : nat) (w : world) :
  forall (st : loop_state) why st' tr,
    0 <= remain_size st < 4294967296 ->
    reads_within_remaining w st ->
    stream_loop fuel w st = Some (why, st', tr) ->
    bytes_offered tr <= remain_size st
    /\ remain_size st' = remain_size st - bytes_offered tr
    /\ (why = PayloadDone ->
        bytes_accepted tr = remain_size st /\ remain_size st' = 0).
Proof.
  induction fuel as [|fuel IH]; intros st why st' tr Hr Hreads;
    [discriminate|].
  rewrite stream_loop_S.
  pose proof (uint32_range (file_read w (chunk st))) as Hsup.
  fold (supply_size w (chunk st)) in Hsup.
  destruct (loop_body_cases w st)
    as [(H0 & E)|[(H0 & _ & E)|[(H0 & _ & _ & E)|(H0 & _ & _ & E)]]];
    rewrite E.
  - intros [= <- <- <-]. cbn. repeat split; lia.
  - intros [= <- <- <-]. cbn. repeat split; try lia; discriminate.
  - intros [= <- <- <-]. cbn.
    pose proof (Hreads st (reaches_start w st) H0) as Hle.
    rewrite uint32_sub_small by lia.
    repeat split; try lia; discriminate.
  - destruct (stream_loop fuel w _) as [[[why1 st1] tr1]|] eqn:Hrest;
      [|discriminate].
    intros [= <- <- <-].
    pose proof (Hreads st (reaches_start w st) H0) as Hle.
    pose proof (reads_within_remaining_step w st _ _ Hreads E) as Hreads'.
    destruct (IH _ _ _ _ (next_counter_range w st) Hreads' Hrest)
      as (Hb & Hrem & Hdone).
    cbn [remain_size] in Hb, Hrem, Hdone.
    rewrite uint32_sub_small in Hb, Hrem, Hdone by lia.
    change (bytes_offered (FileRead ?a ?b :: WriteFrames ?c ?d ?e :: ?l))
      with (d + bytes_offered l).
    change (bytes_accepted (FileRead ?a ?b :: WriteFrames ?c ?d true :: ?l))
      with (d + bytes_accepted l).
    split; [lia|]. split; [lia|].
    intros Hwhy. destruct (Hdone Hwhy). split; lia.
Qed.

(** The payload of 1500 bytes in a file that ends with it. *)
Lemma payload_is_not_exceeded_witness :
  bytes_accepted
    [FileRead 0 1024; WriteFrames 0 1024 true;
     FileRead 1 476; WriteFrames 1 476 true] = 1500
  /\ 0 = 0.
Proof.
  apply (payload_is_not_exceeded 3 exact_asset
           {| chunk := 0; remain_size := 1500 |} PayloadDone
           {| chunk := 2; remain_size := 0 |}
           [FileRead 0 1024; WriteFrames 0 1024 true;
            FileRead 1 476; WriteFrames 1 476 true]).
  - split; [apply Z.leb_le|apply Z.ltb_lt]; reflexivity.
  - exact exact_asset_reads_within_remaining.
  - reflexivity.
  - reflexivity.
Defined.

(** X18: [writeFrames] is never called with an empty chunk.  When every
    [file.read] returns a count between 0 and [BUFFER_SIZE], no chunk handed
    to [writeFrames] is larger than [BUFFER_SIZE].  A negative return value
    of [file.read] is not caught: stored in a [size_t] it becomes a count of
    at least 2^31, and while the counter is above 0 that count is handed to
    [writeFrames]. *)
Theorem chunks_fit_the_buffer (fuel : nat) (w : world) :
  forall (st : loop_state) why st' tr,
    stream_loop fuel w st = Some (why, st', tr) ->
    Forall (fun n => 0 < n) (written_sizes tr)
    /\ ((forall k, 0 <= file_read w k <= BUFFER_SIZE) ->
        Forall (fun n => n <= BUFFER_SIZE) (written_sizes tr))
    /\ (forall st0 : loop_state,
          0 < remain_size st0 ->
          -2147483648 <= file_read w (chunk st0) < 0 ->
          BUFFER_SIZE < file_read w (chunk st0) + 4294967296
          /\ In (WriteFrames (chunk st0)
                   (file_read w (chunk st0) + 4294967296)
                   (writeFrames w (chunk st0)))
                (snd (loop_body w st0))).
Proof.
  intros st why st' tr Hrun. rewrite <- and_assoc. split.
  - revert st why st' tr Hrun.
    induction fuel as [|fuel IH]; intros st why st' tr; [discriminate|].
    rewrite stream_loop_S.
    pose proof (uint32_range (file_read w (chunk st))) as Hsup.
    fold (supply_size w (chunk st)) in Hsup.
    assert (Hfit : (forall k, 0 <= file_read w k <= BUFFER_SIZE) ->
                   supply_size w (chunk st) <= BUFFER_SIZE).
    { intros Hread. specialize (Hread (chunk st)). unfold supply_size.
      unfold BUFFER_SIZE in *. rewrite uint32_id; lia. }
    destruct (loop_body_cases w st)
      as [(_ & E)|[(_ & _ & E)|[(_ & Hs & _ & E)|(_ & Hs & _ & E)]]];
      rewrite E.
    + intros [= <- <- <-]. split; constructor.
    + intros [= <- <- <-]. split; constructor.
    + intros [= <- <- <-]. cbn.
      split; [|intros Hread]; constructor; auto; lia.
    + destruct (stream_loop fuel w _) as [[[why1 st1] tr1]|] eqn:Hrest;
        [|discriminate].
      intros [= <- <- <-].
      destruct (IH _ _ _ _ Hrest) as [Hpos Hmax].
      change (written_sizes (FileRead ?a ?b :: WriteFrames ?c ?d ?e :: ?l))
        with (d :: written_sizes l).
      split; [|intros Hread]; constructor; auto; lia.
  - intros st0 Hpos Hneg. unfold BUFFER_SIZE. split; [lia|].
    assert (Hsup : supply_size w (chunk st0)
                   = file_read w (chunk st0) + 4294967296).
    { unfold supply_size, uint32. symmetry.
      apply Z.mod_unique with (q := -1); lia. }
    unfold loop_body. apply Z.ltb_lt in Hpos. rewrite Hpos, Hsup.
    destruct (Z.eqb_spec (file_read w (chunk st0) + 4294967296) 0); [lia|].
    destruct (writeFrames w (chunk st0)); cbn; auto.
Qed.

(** The truncated asset; and a storage whose read fails with -1, in front
    of a library that refuses the chunk. *)
Lemma chunks_fit_the_buffer_witness :
  (Forall (fun n => 0 < n) (written_sizes truncated_playback)
   /\ ((forall k, 0 <= file_read truncated_asset k <= BUFFER_SIZE) ->
       Forall (fun n => n <= BUFFER_SIZE)
              (written_sizes truncated_playback)))
  /\ In (WriteFrames 0 4294967295 false)
        (snd (loop_body (world_with 5120 (fun _ => -1) (fun _ => false))
                {| chunk := 0; remain_size := 5120 |})).
Proof.
  split.
  - destruct (chunks_fit_the_buffer 10 truncated_asset
                {| chunk := 0; remain_size := 5120 |} ReadError
                {| chunk := 3; remain_size := 2048 |}
                [FileRead 0 1024; WriteFrames 0 1024 true;
                 FileRead 1 1024; WriteFrames 1 1024 true;
                 FileRead 2 1024; WriteFrames 2 1024 true;
                 FileRead 3 0; SerialPrint "Error reading file"]
                eq_refl) as (Hpos & Hmax & _).
    split; assumption.
  - apply (proj2 (proj2 (chunks_fit_the_buffer 1
                           (world_with 5120 (fun _ => -1) (fun _ => false))
                           {| chunk := 0; remain_size := 5120 |} WriteError
                           {| chunk := 1; remain_size := 5121 |}
                           [FileRead 0 4294967295;
                            WriteFrames 0 4294967295 false;
                            SerialPrint "Error writing frames: ";
                            SerialPrintErr 0]
                           eq_refl))
             {| chunk := 0; remain_size := 5120 |} eq_refl
             (conj (proj1 (Z.leb_le (-2147483648) (-1)) eq_refl) eq_refl)).
Defined.

Lemma stream_file_from (w : world) (size : Z) :
  (forall k, file_read w k = file_of_length size k) ->
  (forall k, writeFrames w k = true) ->
  forall (m k : nat) (r : Z),
    r = Z.max 0 (size - BUFFER_SIZE * Z.of_nat k) ->
    r <= Z.of_nat m -> r < 4294967296 ->
    exists st' tr,
      stream_loop (S m) w {| chunk := k; remain_size := r |}
      = Some (PayloadDone, st', tr)
      /\ remain_size st' = 0
      /\ bytes_accepted tr = r
      /\ Z.of_nat (chunk st') = Z.of_nat k + (r + 1023) / 1024.
Proof.
  intros Hread Hwrite. unfold BUFFER_SIZE.
  induction m as [|m IH]; intros k r Hr Hm H32; rewrite stream_loop_S;
    destruct (loop_body_cases w {| chunk := k; remain_size := r |})
      as [(H0 & E)|[(H0 & Hs & E)|[(H0 & Hs & Hw & E)|(H0 & Hs & Hw & E)]]];
    cbn [chunk remain_size] in *;
    try (rewrite Hwrite in Hw; discriminate Hw);
    try lia.
  - rewrite E. exists {| chunk := k; remain_size := r |}, [].
    assert (Hr0 : r = 0) by lia.
    split; [reflexivity|]. cbn. rewrite Hr0.
    change ((0 + 1023) / 1024) with 0. repeat split; lia.
  - rewrite E. exists {| chunk := k; remain_size := r |}, [].
    assert (Hr0 : r = 0) by lia.
    split; [reflexivity|]. cbn. rewrite Hr0.
    change ((0 + 1023) / 1024) with 0. repeat split; lia.
  - exfalso. unfold supply_size in Hs. rewrite Hread in Hs.
    unfold file_of_length, BUFFER_SIZE in Hs.
    rewrite uint32_id in Hs by lia. lia.
  - rewrite E.
    assert (Hsup : supply_size w k = Z.min 1024 r).
    { unfold supply_size. rewrite Hread.
      unfold file_of_length, BUFFER_SIZE. rewrite uint32_id by lia. lia. }
    rewrite Hsup in *.
    rewrite uint32_sub_small by lia.
    destruct (IH (S k) (r - Z.min 1024 r)) as (st' & tr & Hrun & Hz & Hb & Hc);
      try lia.
    rewrite Hrun. exists st', (delivered w k ++ tr).
    split; [reflexivity|]. split; [assumption|].
    rewrite bytes_accepted_app. unfold delivered at 1, bytes_accepted at 1.
    cbn [flat_map app fold_right]. rewrite Hsup, Hb, Hc.
    split; [lia|].
    rewrite Nat2Z.inj_succ.
    destruct (Z_lt_le_dec r 1024) as [Hsmall|Hbig].
    + rewrite Z.min_r by lia. replace (r - r + 1023) with 1023 by lia.
      Z.div_mod_to_equations; lia.
    + rewrite Z.min_l by lia.
      replace (r + 1023) with (r - 1024 + 1023 + 1 * 1024) by lia.
      rewrite Z.div_add by lia. lia.
Qed.

(** X19: an asset whose file holds exactly the announced payload, played
    through an audio library that accepts every chunk, is streamed in full:
    the loop is left because the counter reached 0, after
    [ceil (data_size / BUFFER_SIZE)] chunks, and the player has accepted
    [data_size] bytes. *)
Theorem whole_file_is_streamed (w : world) (handle : wav_handle) :
  0 <= data_size handle < 4294967296 ->
  (forall k, file_read w k = file_of_length (data_size handle) k) ->
  (forall k, writeFrames w k = true) ->
  exists st' tr,
    stream_loop (S (Z.to_nat (data_size handle))) w (loop_start handle)
    = Some (PayloadDone, st', tr)
    /\ remain_size st' = 0
    /\ bytes_accepted tr = data_size handle
    /\ Z.of_nat (chunk st') = (data_size handle + 1023) / 1024.
Proof.
  intros Hsize Hread Hwrite. unfold loop_start.
  rewrite uint32_id by assumption.
  destruct (stream_file_from w (data_size handle) Hread Hwrite
              (Z.to_nat (data_size handle)) 0%nat (data_size handle))
    as (st' & tr & Hrun & Hz & Hb & Hc);
    unfold BUFFER_SIZE; try lia.
  exists st', tr. repeat split; assumption.
Qed.

Lemma whole_file_is_streamed_witness :
  exists st' tr,
    stream_loop 1501 exact_asset {| chunk := 0; remain_size := 1500 |}
    = Some (PayloadDone, st', tr)
    /\ remain_size st' = 0
    /\ bytes_accepted tr = 1500
    /\ Z.of_nat (chunk st') = 2.
Proof.
  apply (whole_file_is_streamed exact_asset
           {| data_offset := 44; data_size := 1500 |}).
  - split; [apply Z.leb_le|apply Z.ltb_lt]; reflexivity.
  - reflexivity.
  - reflexivity.
Defined.

End StreamFacts.

(** ** A whole playback *)
Module PlaybackFacts.
Import Constants AudioManager MachineIntFacts AudioProofs StreamFacts.

Lemma playWavFile_shape
  (fuel : nat) (w : world) (handle : wav_handle) (tr : list event) :
  playWavFile fuel w handle = Some tr ->
  exists (n : nat) (why : loop_exit),
    tr = FileSeek (data_offset handle) :: StopPlayer
           :: (flat_map (delivered w) (seq 0 n) ++ exit_events w why n)
           ++ [StartPlayer; FileClose].
Proof.
  unfold playWavFile.
  destruct (stream_loop fuel w (loop_start handle))
    as [[[why st'] ltr]|] eqn:Hloop; [|discriminate].
  intros [= <-].
  destruct (stream_loop_trace _ _ _ _ _ _ Hloop) as [n ->].
  now exists n, why.
Qed.

(** The four ways through [playSound]. *)
Lemma playSound_cases (fuel : nat) (w : world) (i : Z) :
  ((i < 0 \/ SCALE_SIZE <= i)
   /\ playSound fuel w i
      = Some [StopPlayer; StartPlayer; SerialPrint "Invalid scale index"])
  \/ (0 <= i < SCALE_SIZE
      /\ parseChunk w (asset_path i) = None
      /\ playSound fuel w i
         = Some [StopPlayer; StartPlayer; ParseChunk (asset_path i);
                 SerialPrint "WAV parser error for file: ";
                 SerialPrint (asset_path i)])
  \/ (0 <= i < SCALE_SIZE
      /\ (exists h, parseChunk w (asset_path i) = Some h)
      /\ sd_open w (scale_file i) = false
      /\ playSound fuel w i
         = Some [StopPlayer; StartPlayer; ParseChunk (asset_path i);
                 SdOpen (scale_file i); SerialPrint "File open error"])
  \/ (0 <= i < SCALE_SIZE
      /\ sd_open w (scale_file i) = true
      /\ exists h,
           parseChunk w (asset_path i) = Some h
           /\ playSound fuel w i
              = match playWavFile fuel w h with
                | Some tr =>
                    Some (StopPlayer :: StartPlayer
                            :: ParseChunk (asset_path i)
                            :: SdOpen (scale_file i) :: tr ++ [FileClose])
                | None => None
                end).
Proof.
  unfold playSound, asset_path, scale_file.
  destruct (Z.ltb_spec i 0) as [Hneg|Hnonneg]; [left; split; [lia|easy]|].
  destruct (Z.leb_spec SCALE_SIZE i) as [Hbig|Hsmall];
    [left; split; [lia|easy]|].
  right. cbn [orb].
  destruct (parseChunk w _) as [h|] eqn:Hparse; [|left; repeat split; lia].
  right.
  destruct (sd_open w _) eqn:Hopen.
  - right. repeat split; try lia. exists h. split; [reflexivity|].
    now destruct (playWavFile fuel w h).
  - left. repeat split; try lia. now exists h.
Qed.

Lemma filter_close_delivered (w : world) (l : list nat) :
  filter is_close (flat_map (delivered w) l) = [].
Proof. induction l as [|k l IH]; [reflexivity|exact IH]. Qed.

Lemma filter_close_exit (w : world) (why : loop_exit) (k : nat) :
  filter is_close (exit_events w why k) = [].
Proof. now destruct why. Qed.

(** X20: every call of [playSound] that returns begins by stopping and
    starting the player, and leaves the player started, whether it played
    the asset, played part of it or gave up at the index, the header or the
    file. *)
Theorem playSound_leaves_player_started
  (fuel : nat) (w : world) (i : Z) (tr : list event) :
  playSound fuel w i = Some tr ->
  (exists rest, tr = StopPlayer :: StartPlayer :: rest)
  /\ forall p, player_after p tr = Started.
Proof.
  destruct (playSound_cases fuel w i)
    as [(_ & E)|[(_ & _ & E)|[(_ & _ & _ & E)|(_ & _ & h & _ & E)]]];
    rewrite E; try (intros [= <-]; split; [eauto|reflexivity]).
  destruct (playWavFile fuel w h) as [ptr|] eqn:Hplay; [|discriminate].
  intros [= <-]. split; [eauto|].
  destruct (playWavFile_shape _ _ _ _ Hplay) as (n & why & ->).
  intros p. cbn [app]. rewrite <- app_assoc.
  change (StopPlayer :: StartPlayer :: ?a :: ?b :: ?c :: ?d :: ?l ++ ?r)
    with ((StopPlayer :: StartPlayer :: a :: b :: c :: d :: l) ++ r).
  now rewrite player_after_app.
Qed.

(** A call whose asset cannot be parsed. *)
Lemma playSound_leaves_player_started_witness :
  player_after Stopped
    [StopPlayer; StartPlayer; ParseChunk "/mnt/sd0/E3.wav";
     SerialPrint "WAV parser error for file: ";
     SerialPrint "/mnt/sd0/E3.wav"] = Started.
Proof.
  apply (proj2 (playSound_leaves_player_started 0
                  {| parseChunk := fun _ => None; sd_open := fun _ => true;
                     file_read := fun _ => 0; writeFrames := fun _ => true |}
                  2 _ eq_refl)).
Defined.

(** X21: [playSound] touches the storage only for an index inside the
    scale, and it seeks, reads, writes frames or closes a file only when the
    header was parsed and the file was opened. *)
Theorem streaming_needs_parse_and_open
  (fuel : nat) (w : world) (i : Z) (tr : list event) :
  playSound fuel w i = Some tr ->
  (existsb is_storage_op tr = true -> 0 <= i < SCALE_SIZE)
  /\ (existsb is_streaming tr = true ->
      0 <= i < SCALE_SIZE
      /\ sd_open w (scale_file i) = true
      /\ exists h, parseChunk w (asset_path i) = Some h).
Proof.
  destruct (playSound_cases fuel w i)
    as [(_ & E)|[(Hi & _ & E)|[(Hi & _ & _ & E)|(Hi & Ho & h & Hp & E)]]];
    rewrite E.
  - intros [= <-]. split; discriminate.
  - intros [= <-]. split; [auto|discriminate].
  - intros [= <-]. split; [auto|discriminate].
  - intros _. split; eauto.
Qed.

(** The truncated asset, played at index 0. *)
Lemma streaming_needs_parse_and_open_witness :
  0 <= 0 < SCALE_SIZE
  /\ sd_open truncated_asset (scale_file 0) = true
  /\ exists h, parseChunk truncated_asset (asset_path 0) = Some h.
Proof.
  apply (proj2 (streaming_needs_parse_and_open 10 truncated_asset 0
                  (StopPlayer :: StartPlayer
                     :: ParseChunk "/mnt/sd0/C3.wav" :: SdOpen "C3.wav"
                     :: truncated_playback ++ [FileClose])
                  eq_refl)).
  reflexivity.
Defined.

(** X22: a call of [playSound] that gets as far as the opened file and
    returns has closed the file twice: once at the end of [playWavFile] and
    once more in [playSound], after the player was started.  The call does
    return when every read of the asset returns at most the remaining
    count. *)
Theorem playback_closes_file_twice (w : world) (i : Z) (h : wav_handle) :
  0 <= i < SCALE_SIZE ->
  parseChunk w (asset_path i) = Some h ->
  sd_open w (scale_file i) = true ->
  (forall (fuel : nat) (tr : list event),
     playSound fuel w i = Some tr ->
     filter is_close tr = [FileClose; FileClose]
     /\ exists body, tr = body ++ [StartPlayer; FileClose; FileClose])
  /\ (reads_within_remaining w (loop_start h) ->
      exists tr,
        playSound (S (Z.to_nat (remain_size (loop_start h)))) w i = Some tr
        /\ filter is_close tr = [FileClose; FileClose]).
Proof.
  intros Hi Hparse Hopen.
  assert (Hclose : forall (fuel : nat) (tr : list event),
             playSound fuel w i = Some tr ->
             filter is_close tr = [FileClose; FileClose]
             /\ exists body, tr = body ++ [StartPlayer; FileClose; FileClose]).
  { intros fuel tr.
    destruct (playSound_cases fuel w i)
      as [(Hbad & _)|[(_ & Hp & _)|[(_ & _ & Ho & _)|(_ & _ & h' & Hp & E)]]];
      try lia; try congruence.
    rewrite E. assert (h' = h) as -> by congruence.
    destruct (playWavFile fuel w h) as [ptr|] eqn:Hplay; [|discriminate].
    intros [= <-].
    destruct (playWavFile_shape _ _ _ _ Hplay) as (n & why & ->).
    cbn [app]. rewrite <- app_assoc. cbn [app]. split.
    - cbn [filter is_close]. rewrite !filter_app.
      now rewrite filter_close_delivered, filter_close_exit.
    - exists (StopPlayer :: StartPlayer :: ParseChunk (asset_path i)
                :: SdOpen (scale_file i) :: FileSeek (data_offset h)
                :: StopPlayer
                :: flat_map (delivered w) (seq 0 n) ++ exit_events w why n).
      reflexivity. }
  split; [exact Hclose|].
  intros Hreads.
  pose proof (uint32_range (data_size h)) as Hrange.
  destruct (stream_loop_total w
              (Z.to_nat (remain_size (loop_start h))) (loop_start h))
    as (why & st' & ltr & Hrun);
    cbn [loop_start remain_size]; try assumption; try lia.
  destruct (playSound_cases
              (S (Z.to_nat (remain_size (loop_start h)))) w i)
    as [(Hbad & _)|[(_ & Hp & _)|[(_ & _ & Ho & _)|(_ & _ & h' & Hp & E)]]];
    try lia; try congruence.
  assert (h' = h) as -> by congruence.
  unfold playWavFile in E. rewrite Hrun in E.
  eexists. split; [exact E|].
  apply (Hclose _ _ E).
Qed.

(** The truncated asset played at index 0, and the complete asset, which
    is played to its end. *)
Lemma playback_closes_file_twice_witness :
  (filter is_close
     (StopPlayer :: StartPlayer
        :: ParseChunk "/mnt/sd0/C3.wav" :: SdOpen "C3.wav"
        :: truncated_playback ++ [FileClose])
   = [FileClose; FileClose]
   /\ exists body,
        StopPlayer :: StartPlayer
          :: ParseChunk "/mnt/sd0/C3.wav" :: SdOpen "C3.wav"
          :: truncated_playback ++ [FileClose]
        = body ++ [StartPlayer; FileClose; FileClose])
  /\ exists tr,
       playSound 1501 exact_asset 0 = Some tr
       /\ filter is_close tr = [FileClose; FileClose].
Proof.
  split.
  - apply (proj1 (playback_closes_file_twice truncated_asset 0
                    {| data_offset := 44; data_size := 5120 |}
                    (conj (proj1 (Z.leb_le 0 0) eq_refl)
                          (proj1 (Z.ltb_lt 0 SCALE_SIZE) eq_refl))
                    eq_refl eq_refl) 10%nat).
    reflexivity.
  - apply (proj2 (playback_closes_file_twice exact_asset 0
                    {| data_offset := 44; data_size := 1500 |}
                    (conj (proj1 (Z.leb_le 0 0) eq_refl)
                          (proj1 (Z.ltb_lt 0 SCALE_SIZE) eq_refl))
                    eq_refl eq_refl)).
    exact exact_asset_reads_within_remaining.
Defined.

(** X23: for every index inside the scale the file that is opened is an
    entry of [SCALE_FILES], different indices open different files, and the
    path that is formatted into [filepath] has 15 characters, so it fits the
    32 bytes of the buffer with its terminator. *)
Theorem asset_path_fits (i : Z) :
  0 <= i < SCALE_SIZE ->
  In (scale_file i) SCALE_FILES
  /\ String.length (asset_path i) = 15%nat
  /\ (String.length (asset_path i) < 32)%nat
  /\ forall j, 0 <= j < SCALE_SIZE -> scale_file j = scale_file i -> j = i.
Proof.
  unfold SCALE_SIZE. intros Hi.
  assert (Hcases : i = 0 \/ i = 1 \/ i = 2 \/ i = 3
                   \/ i = 4 \/ i = 5 \/ i = 6 \/ i = 7) by lia.
  split; [|split; [|split]].
  - destruct Hcases as [->|[->|[->|[->|[->|[->|[->| ->]]]]]]];
      cbv [scale_file Z.to_nat Pos.to_nat Pos.iter_op Nat.add nth SCALE_FILES];
      cbn; tauto.
  - destruct Hcases as [->|[->|[->|[->|[->|[->|[->| ->]]]]]]]; reflexivity.
  - destruct Hcases as [->|[->|[->|[->|[->|[->|[->| ->]]]]]]];
      apply Nat.ltb_lt; reflexivity.
  - intros j Hj.
    assert (Hjcases : j = 0 \/ j = 1 \/ j = 2 \/ j = 3
                      \/ j = 4 \/ j = 5 \/ j = 6 \/ j = 7) by lia.
    destruct Hcases as [->|[->|[->|[->|[->|[->|[->| ->]]]]]]];
      destruct Hjcases as [->|[->|[->|[->|[->|[->|[->| ->]]]]]]];
      intros Heq; try reflexivity; discriminate Heq.
Qed.

Lemma asset_path_fits_witness :
  In (scale_file 7) SCALE_FILES
  /\ String.length (asset_path 7) = 15%nat
  /\ (String.length (asset_path 7) < 32)%nat
  /\ forall j, 0 <= j < SCALE_SIZE -> scale_file j = scale_file 7 -> j = 7.
Proof.
  apply (asset_path_fits 7).
  split; [apply Z.leb_le|apply Z.ltb_lt]; reflexivity.
Defined.



End PlaybackFacts.

(** ** The control loop and the streamer together *)
Module SystemFacts.
Import Constants AccelerometerManager AudioManager JumpSoundSystem.
Import ScaleFacts LoopFacts PlaybackFacts.

(** X25: every index the control loop hands to [playSound] lies inside the
    scale, so [playSound] never takes its invalid-index exit for it: after
    resetting the player it goes on to parse the asset of that index. *)
Theorem played_index_is_valid
  (acc : AccelerometerManager.t) (obs : list (Z * Z)) (i : Z) :
  In i (played_indices (snd (run_loop acc obs))) ->
  0 <= i < SCALE_SIZE
  /\ forall fuel w tr,
       playSound fuel w i = Some tr ->
       exists rest,
         tr = StopPlayer :: StartPlayer :: ParseChunk (asset_path i) :: rest.
Proof.
  destruct (run_loop_follows_detector obs acc acc eq_refl eq_refl)
    as (_ & -> & _).
  intros Hin. apply in_map_iff in Hin as (p & <- & _).
  pose proof (calculateScaleIndex_bounds p) as Hrange.
  split; [exact Hrange|].
  intros fuel w tr.
  destruct (playSound_cases fuel w (calculateScaleIndex p))
    as [(Hbad & _)|[(_ & _ & E)|[(_ & _ & _ & E)|(_ & _ & h & _ & E)]]];
    [lia| | |]; rewrite E.
  - intros [= <-]. eauto.
  - intros [= <-]. eauto.
  - destruct (playWavFile fuel w h); [|discriminate].
    intros [= <-]. eauto.
Qed.

Lemma played_index_is_valid_witness :
  0 <= 0 < SCALE_SIZE
  /\ forall fuel w tr,
       playSound fuel w 0 = Some tr ->
       exists rest,
         tr = StopPlayer :: StartPlayer :: ParseChunk (asset_path 0) :: rest.
Proof.
  apply (played_index_is_valid initial (scenario 1000 1100 1200 1300 1400) 0).
  left. reflexivity.
Defined.

End SystemFacts.
